(** * FlatGeoGraphBuf: a shallow embedding of the graph-section codec

    The development follows [graph.ts] (schema inference, graph header,
    property codec, edge records, batch and streaming readers),
    [geojson/featurecollection.ts] (offset locator, [serialize],
    [deserialize], [deserializeGraphEdges]) and [constants.ts].

    Conventions.
    - A byte buffer is a [list byte]; a [Uint8Array] is a window
      (offset, length) on a buffer, a [DataView] a window that runs to the
      end of its buffer, exactly as the JavaScript objects of the same name.
    - Integers read from or written to the wire are [Z], with the wrap-around
      of the field width written out.
    - A JavaScript [number] is represented by its IEEE-754 binary64 bit
      pattern, with a single canonical NaN.
    - A thrown exception is the [Throw] case of [result].
    - What the JavaScript engine and the FlatGeobuf feature codec provide
      (text codec, JSON, coercions of ill-typed values, feature header and
      feature bodies) are the fields of the classes [JsRuntime] and
      [FeatureCodec]. *)

From Stdlib Require Import ZArith List String Ascii Lia Bool DecimalString.
From coqutil Require Import Byte Word.LittleEndianList.
Import ListNotations.
Local Open Scope Z_scope.
Set Warnings "-register-all".

(** ** Exceptions *)

Inductive JsError : Type :=
| RangeError
| TypeError
| SyntaxError
| Error (message : string).

Inductive result (A : Type) : Type :=
| Ok (a : A)
| Throw (e : JsError).
Arguments Ok {A} a.
Arguments Throw {A} e.

Definition bind {A B : Type} (r : result A) (k : A -> result B) : result B :=
  match r with
  | Ok a => k a
  | Throw e => Throw e
  end.

Notation "x <- r ;; k" := (bind r (fun x => k))
  (at level 61, r at next level, right associativity).
Notation "' p <- r ;; k" := (bind r (fun x => let p := x in k))
  (at level 61, p pattern, r at next level, right associativity).

Definition len {A : Type} (l : list A) : Z := Z.of_nat (List.length l).

(** [l.slice(start, start + n)] on a plain list, for [0 <= start]. *)
Definition sub {A : Type} (l : list A) (start : Z) (n : Z) : list A :=
  firstn (Z.to_nat n) (skipn (Z.to_nat start) l).

(** Template-literal rendering of an integer. *)
Definition string_of_Z (z : Z) : string := NilZero.string_of_int (Z.to_int z).

(** ** IEEE-754 numbers as bit patterns *)

Module Float.

(** The value denoted by a bit pattern: [FFinite s m e] is
    [(-1)^s * m * 2^e] with [0 < m]. *)
Inductive fp : Type :=
| FZero (s : bool)
| FInf (s : bool)
| FNaN
| FFinite (s : bool) (m : Z) (e : Z).

(** Exponent of the unit in the last place of the subnormal range, for a
    format with [mw] mantissa bits and [ew] exponent bits. *)
Definition emin (mw ew : Z) : Z := 2 - 2 ^ (ew - 1) - mw.

Definition unpack (mw ew : Z) (b : Z) : fp :=
  let s := Z.testbit b (mw + ew) in
  let ex := Z.shiftr b mw mod 2 ^ ew in
  let mant := b mod 2 ^ mw in
  if ex =? 2 ^ ew - 1 then (if mant =? 0 then FInf s else FNaN)
  else if ex =? 0 then (if mant =? 0 then FZero s else FFinite s mant (emin mw ew))
  else FFinite s (2 ^ mw + mant) (ex - 1 + emin mw ew).

(** Round [m / 2^sh] to the nearest integer, ties to even. *)
Definition rne (m sh : Z) : Z :=
  let q := m / 2 ^ sh in
  let r := m mod 2 ^ sh in
  let h := 2 ^ (sh - 1) in
  if (h <? r) || ((r =? h) && Z.odd q) then q + 1 else q.

Definition sign_bit (mw ew : Z) (s : bool) : Z :=
  if s then 2 ^ (mw + ew) else 0.

Definition inf_bits (mw ew : Z) : Z := (2 ^ ew - 1) * 2 ^ mw.

(** Nearest representable value (ties to even), overflowing to infinity. *)
Definition pack (mw ew : Z) (x : fp) : Z :=
  match x with
  | FZero s => sign_bit mw ew s
  | FInf s => sign_bit mw ew s + inf_bits mw ew
  | FNaN => inf_bits mw ew + 2 ^ (mw - 1)
  | FFinite s m e =>
      let E := Z.max (Z.log2 m + e - mw) (emin mw ew) in
      let sh := E - e in
      let M := if sh <=? 0 then m * 2 ^ (- sh) else rne m sh in
      sign_bit mw ew s + Z.min ((E - emin mw ew) * 2 ^ mw + M) (inf_bits mw ew)
  end.

(** A JavaScript number: 64 bits, NaN canonical. *)
Definition number : Type := Z.

Definition NaN : number := 0x7FF8000000000000.

Definition canon (b : Z) : number :=
  match unpack 52 11 b with
  | FNaN => NaN
  | _ => b mod 2 ^ 64
  end.


(** [Number(z)] for an integer (BigInt) [z], and the conversion of the
    integer results of the DataView getters. *)
Definition of_Z (z : Z) : number :=
  if z =? 0 then 0 else pack 52 11 (FFinite (z <? 0) (Z.abs z) 0).

(** The integer a number denotes, when it denotes one ([BigInt(n)]). *)
Definition to_Z (n : number) : option Z :=
  match unpack 52 11 n with
  | FZero _ => Some 0
  | FFinite s m e =>
      if 0 <=? e then Some ((if s then -1 else 1) * (m * 2 ^ e))
      else if m mod 2 ^ (- e) =? 0 then Some ((if s then -1 else 1) * (m / 2 ^ (- e)))
      else None
  | _ => None
  end.

(** Truncation toward zero, [0] for NaN and the infinities: the integer
    the [setInt*]/[setUint*] family reduces modulo the field width. *)
Definition trunc (n : number) : Z :=
  match unpack 52 11 n with
  | FFinite s m e =>
      (if s then -1 else 1) * (if 0 <=? e then m * 2 ^ e else m / 2 ^ (- e))
  | _ => 0
  end.

(** [setFloat32]: binary64 to binary32. *)
Definition to_float32 (n : number) : Z := pack 23 8 (unpack 52 11 n).

(** [getFloat32]: binary32 to binary64 (exact). *)
Definition of_float32 (b : Z) : number := pack 52 11 (unpack 23 8 b).

(** The value of a number scaled by [2^1074], which is an integer: the
    least exponent of the format is [-1074].  [None] for NaN; an infinity
    lies beyond every finite value. *)
Definition scaled (n : number) : option Z :=
  match unpack 52 11 n with
  | FNaN => None
  | FZero _ => Some 0
  | FInf s => Some ((if s then -1 else 1) * 2 ^ 2100)
  | FFinite s m e => Some ((if s then -1 else 1) * (m * 2 ^ (e + 1074)))
  end.

(** [a < b], [a <= b] and [a === b] on numbers: false as soon as one side
    is NaN; the two zeros are equal. *)
Definition ltb (a b : number) : bool :=
  match scaled a, scaled b with
  | Some x, Some y => x <? y
  | _, _ => false
  end.

Definition leb (a b : number) : bool :=
  match scaled a, scaled b with
  | Some x, Some y => x <=? y
  | _, _ => false
  end.

Definition eqb (a b : number) : bool :=
  match scaled a, scaled b with
  | Some x, Some y => x =? y
  | _, _ => false
  end.

Definition is_zero (n : number) : bool :=
  match unpack 52 11 n with FZero _ => true | _ => false end.

Definition is_nan (n : number) : bool :=
  match unpack 52 11 n with FNaN => true | _ => false end.

End Float.

Definition number : Type := Float.number.

(** ** Typed arrays and data views *)

Module Uint8Array.

Record t : Type := make { buffer : list byte; byteOffset : Z; length : Z }.

(** [new Uint8Array(n)] filled from a list: a window on all of a fresh buffer. *)
Definition of_list (l : list byte) : t := make l 0 (len l).

(** [a[i]]; [None] is [undefined]. *)
Definition get (a : t) (i : Z) : option byte :=
  if (0 <=? i) && (i <? length a)
  then nth_error (buffer a) (Z.to_nat (byteOffset a + i))
  else None.

(** Relative index of [subarray] and [slice]. *)
Definition rel (a : t) (i : Z) : Z :=
  if i <? 0 then Z.max (length a + i) 0 else Z.min i (length a).

Definition subarray (a : t) (b e : Z) : t :=
  make (buffer a) (byteOffset a + rel a b) (Z.max (rel a e - rel a b) 0).

Definition to_list (a : t) : list byte := sub (buffer a) (byteOffset a) (length a).

(** [a.slice(b, e)]: a copy. *)
Definition slice (a : t) (b e : Z) : list byte := to_list (subarray a b e).

End Uint8Array.

Module DataView.

Record t : Type := make { buffer : list byte; byteOffset : Z }.

(** [new DataView(buffer, byteOffset)]: the view runs to the end of the buffer. *)
Definition new (buf : list byte) (off : Z) : result t :=
  if (0 <=? off) && (off <=? len buf) then Ok (make buf off) else Throw RangeError.

Definition getBytes (v : t) (pos : Z) (n : Z) : result (list byte) :=
  if (0 <=? pos) && (byteOffset v + pos + n <=? len (buffer v))
  then Ok (sub (buffer v) (byteOffset v + pos) n)
  else Throw RangeError.

(** Unsigned and signed little-endian reads of [n] bytes. *)
Definition getUint (n : Z) (v : t) (pos : Z) : result Z :=
  bs <- getBytes v pos n ;; Ok (le_combine bs).

Definition signed (n : Z) (u : Z) : Z :=
  if u <? 2 ^ (8 * n - 1) then u else u - 2 ^ (8 * n).

Definition getInt (n : Z) (v : t) (pos : Z) : result Z :=
  u <- getUint n v pos ;; Ok (signed n u).

Definition getUint8 := getUint 1.
Definition getInt8 := getInt 1.
Definition getUint16 := getUint 2.
Definition getInt16 := getInt 2.
Definition getUint32 := getUint 4.
Definition getInt32 := getInt 4.
Definition getBigInt64 := getInt 8.
Definition getBigUint64 := getUint 8.

Definition getFloat32 (v : t) (pos : Z) : result number :=
  u <- getUint 4 v pos ;; Ok (Float.of_float32 u).

Definition getFloat64 (v : t) (pos : Z) : result number :=
  u <- getUint 8 v pos ;; Ok (Float.canon u).

End DataView.

(** The bytes the [set*] family writes: [n] little-endian bytes of [z]
    modulo [2^(8n)]. *)
Definition setUint (n : nat) (z : Z) : list byte := le_split n z.

(** flatbuffers' [ByteBuffer.readUint32]: the four bytes are or-ed together,
    a byte outside the array reads as [undefined] and contributes [0]. *)
Definition bb_readUint32 (bytes : Uint8Array.t) (offset : Z) : Z :=
  let b i := match Uint8Array.get bytes (offset + i) with
             | Some x => byte.unsigned x
             | None => 0
             end in
  Z.lor (Z.lor (Z.lor (b 0) (Z.shiftl (b 1) 8)) (Z.shiftl (b 2) 16)) (Z.shiftl (b 3) 24).

(** ** constants.ts *)

Definition magicbytes : list byte :=
  map byte.of_Z [0x66; 0x67; 0x67; 0x01; 0x66; 0x67; 0x67; 0x00].
Definition fgbMagicBytes : list byte :=
  map byte.of_Z [0x66; 0x67; 0x62; 0x03; 0x66; 0x67; 0x62; 0x00].
Definition SIZE_PREFIX_LEN : Z := 4.

Definition byte_is (bytes : Uint8Array.t) (i : Z) (v : Z) : bool :=
  match Uint8Array.get bytes i with
  | Some x => byte.unsigned x =? v
  | None => false
  end.

Definition isValidMagicBytes (bytes : Uint8Array.t) : bool :=
  let fgg := byte_is bytes 0 0x66 && byte_is bytes 1 0x67 && byte_is bytes 2 0x67 in
  let fgb := byte_is bytes 0 0x66 && byte_is bytes 1 0x67 && byte_is bytes 2 0x62 in
  fgg || fgb.

(** ** JavaScript values

    The values an edge property can hold according to [EdgeProperties]:
    [boolean | number | string | Uint8Array | object | null | undefined];
    arrays and plain objects stand for [object].  A function is what a
    lookup finds under the name of an inherited method. *)

Inductive JsValue : Type :=
| VUndefined
| VNull
| VBool (b : bool)
| VNumber (n : number)
| VString (s : string)
| VBinary (blob : list byte)
| VArray (items : list JsValue)
| VObject (fields : list (string * JsValue))
| VFunction (name : string).

(** The truthiness test of [value ? 1 : 0]. *)
Definition ToBoolean (value : JsValue) : bool :=
  match value with
  | VUndefined | VNull => false
  | VBool b => b
  | VNumber n => negb (Float.is_zero n || Float.is_nan n)
  | VString s => negb (String.eqb s "")
  | VBinary _ | VArray _ | VObject _ | VFunction _ => true
  end.

(** What the engine provides.  The [coerce*] fields stand for the
    conversions the engine applies when a value reaches a typed write
    through a cast ([value as number], [value as string], [value as
    Uint8Array]) that does not match its run-time type. *)
Class JsRuntime : Type := {
  textEncoder_encode : string -> list byte;
  textDecoder_decode : list byte -> string;
  (** the text handed to the encoder: for a value [JSON.stringify] maps to
      [undefined] (a function), the empty text, which is what
      [textEncoder.encode(undefined)] encodes *)
  JSON_stringify : JsValue -> result string;
  JSON_parse : string -> result JsValue;
  (** [String(n)] for a number that is not an integer of magnitude below
      10^21: NaN, the infinities, fractions, exponent notation *)
  formatNumber : number -> string;
  coerceToNumber : JsValue -> result number;
  coerceToBigInt : JsValue -> result Z;
  coerceToString : JsValue -> result string;
  coerceToBlob : JsValue -> result (list byte)
}.

(** ** Column types and column descriptors *)

Module ColumnType.

Inductive t : Type :=
| Byte | UByte | Bool | Short | UShort | Int | UInt | Long | ULong
| Float | Double | String | Json | DateTime | Binary.

Definition tag (c : t) : Z :=
  match c with
  | Byte => 0 | UByte => 1 | Bool => 2 | Short => 3 | UShort => 4
  | Int => 5 | UInt => 6 | Long => 7 | ULong => 8 | Float => 9
  | Double => 10 | String => 11 | Json => 12 | DateTime => 13 | Binary => 14
  end.

Definition all : list t :=
  [Byte; UByte; Bool; Short; UShort; Int; UInt; Long; ULong;
   Float; Double; String; Json; DateTime; Binary].

(** The case a [switch (column.type)] selects; [None] is [default]. *)
Definition of_tag (x : option Z) : option t :=
  match x with
  | Some z => find (fun c => tag c =? z) all
  | None => None
  end.

End ColumnType.

(** [ColumnMeta]: the fields besides [name] and [type] are constants in
    both producers of this file ([introspectEdgeColumns] and
    [parseGraphHeader]) and are left out.  [type] is the number the field
    holds at run time: any byte read from the wire, or [None] for
    [undefined]. *)
Record ColumnMeta : Type := { name : string; type : option Z }.

Definition show_type (x : option Z) : string :=
  match x with
  | Some z => string_of_Z z
  | None => "undefined"
  end.

(** ** graph-types.ts *)

(** A property map: a plain object, given by its own enumerable properties
    in key iteration order.  Its prototype is [Object.prototype], as for an
    object literal and for the [{}] the decoder starts from. *)
Definition EdgeProperties : Type := list (string * JsValue).

(** What every plain object inherits from [Object.prototype]: eleven
    methods, and the accessor [__proto__], which gives the prototype itself,
    an object without enumerable properties. *)
Definition objectPrototypeMethods : list string :=
  [ "constructor"%string; "hasOwnProperty"%string; "isPrototypeOf"%string;
    "propertyIsEnumerable"%string; "toLocaleString"%string; "toString"%string;
    "valueOf"%string; "__defineGetter__"%string; "__defineSetter__"%string;
    "__lookupGetter__"%string; "__lookupSetter__"%string ].

Definition inherited (key : string) : JsValue :=
  if String.eqb key "__proto__" then VObject []
  else if existsb (String.eqb key) objectPrototypeMethods then VFunction key
  else VUndefined.

(** [properties[key]]: the own property, or else the inherited member; the
    lookup makes no own-property test. *)
Fixpoint prop_get (key : string) (properties : EdgeProperties) : JsValue :=
  match properties with
  | [] => inherited key
  | (k, v) :: rest => if String.eqb k key then v else prop_get key rest
  end.

(** [properties[key] = value] for a key other than [__proto__]: an own
    property is created, or updated in its place.  Under the key
    [__proto__] the assignment runs the inherited setter and creates no
    own property; this function does not represent that case, it is exact
    for every other key, and the round-trip statements exclude a column of
    that name. *)
Fixpoint prop_set (key : string) (value : JsValue) (properties : EdgeProperties)
  : EdgeProperties :=
  match properties with
  | [] => [(key, value)]
  | (k, v) :: rest =>
      if String.eqb k key then (k, value) :: rest
      else (k, v) :: prop_set key value rest
  end.

(** [from] and [to] are JavaScript numbers: nothing in the types keeps
    them from being fractions, NaN or infinite. *)
Module EdgeInput.
Record t : Type := { from : number; to : number; properties : option EdgeProperties }.
End EdgeInput.

Module Edge.
Record t : Type := { from : Z; to : Z; properties : EdgeProperties }.
End Edge.

Record AdjacencyListInput : Type := { edges : list EdgeInput.t }.

Record GraphHeaderMeta : Type :=
  { edgeCount : Z; edgeColumns : option (list ColumnMeta) }.

Fixpoint mapM {A B : Type} (f : A -> result B) (l : list A) : result (list B) :=
  match l with
  | [] => Ok []
  | a :: rest => b <- f a ;; bs <- mapM f rest ;; Ok (b :: bs)
  end.

(** ** graph.ts: the writer *)

Section Graph.

Context {RT : JsRuntime}.

Definition valueToColumnType (value : JsValue) : result ColumnType.t :=
  match value with
  | VBool _ => Ok ColumnType.Bool
  | VNumber _ => Ok ColumnType.Double
  | VString _ => Ok ColumnType.String
  | VNull => Ok ColumnType.String
  | VBinary _ => Ok ColumnType.Binary
  | VArray _ | VObject _ => Ok ColumnType.Json
  | VUndefined => Throw (Error "Unknown property type: undefined")
  | VFunction _ => Throw (Error "Unknown property type: function")
  end.

(** [e.properties && Object.keys(e.properties).length > 0] *)
Definition hasProperties (e : EdgeInput.t) : bool :=
  match EdgeInput.properties e with
  | Some (_ :: _) => true
  | _ => false
  end.

Definition introspectEdgeColumns (edges : list EdgeInput.t)
  : result (option (list ColumnMeta)) :=
  match find hasProperties edges with
  | Some firstEdgeWithProps =>
      match EdgeInput.properties firstEdgeWithProps with
      | Some properties =>
          cols <- mapM (fun kv : string * JsValue =>
                          t <- valueToColumnType (prop_get (fst kv) properties) ;;
                          Ok {| name := fst kv; type := Some (ColumnType.tag t) |})
                       properties ;;
          Ok (Some cols)
      | None => Ok None
      end
  | None => Ok None
  end.

Definition encodeColumn (col : ColumnMeta) : list byte :=
  let nameBytes := textEncoder_encode (name col) in
  setUint 2 (len nameBytes) ++ nameBytes
    ++ [byte.of_Z (match type col with Some z => z | None => 0 end)].

Definition buildGraphHeader (edgeCount : Z) (edgeColumns : option (list ColumnMeta))
  : list byte :=
  let columnCount := match edgeColumns with Some cs => len cs | None => 0 end in
  let columnBuffers := match edgeColumns with
                       | Some cs => map encodeColumn cs
                       | None => []
                       end in
  setUint 4 edgeCount ++ setUint 2 columnCount ++ List.concat columnBuffers.

Definition ToNumber (value : JsValue) : result number :=
  match value with
  | VNumber n => Ok n
  | _ => coerceToNumber value
  end.

(** [BigInt(value as number)] *)
Definition BigInt (value : JsValue) : result Z :=
  match value with
  | VNumber n => match Float.to_Z n with
                 | Some z => Ok z
                 | None => Throw RangeError
                 end
  | _ => coerceToBigInt value
  end.

Definition ToString (value : JsValue) : result string :=
  match value with
  | VString s => Ok s
  | _ => coerceToString value
  end.

Definition lengthPrefixed (payload : list byte) : list byte :=
  setUint 4 (len payload) ++ payload.

(** The [switch (column.type)] of [encodeEdgeProperties]: the bytes that
    follow the column ordinal. *)
Definition encodeValue (t : option Z) (value : JsValue) : result (list byte) :=
  match ColumnType.of_tag t with
  | Some ColumnType.Bool => Ok [byte.of_Z (if ToBoolean value then 1 else 0)]
  | Some ColumnType.Short | Some ColumnType.UShort =>
      n <- ToNumber value ;; Ok (setUint 2 (Float.trunc n))
  | Some ColumnType.Int | Some ColumnType.UInt =>
      n <- ToNumber value ;; Ok (setUint 4 (Float.trunc n))
  | Some ColumnType.Long =>
      z <- BigInt value ;; Ok (setUint 8 z)
  | Some ColumnType.Float =>
      n <- ToNumber value ;; Ok (setUint 4 (Float.to_float32 n))
  | Some ColumnType.Double =>
      n <- ToNumber value ;; Ok (setUint 8 n)
  | Some ColumnType.DateTime | Some ColumnType.String =>
      s <- ToString value ;; Ok (lengthPrefixed (textEncoder_encode s))
  | Some ColumnType.Json =>
      s <- JSON_stringify value ;; Ok (lengthPrefixed (textEncoder_encode s))
  | Some ColumnType.Binary =>
      match value with
      | VBinary blob => Ok (lengthPrefixed blob)
      | _ => coerceToBlob value
      end
  | Some ColumnType.Byte | Some ColumnType.UByte | Some ColumnType.ULong | None =>
      Throw (Error ("Unknown column type: " ++ show_type t))
  end.

(** The [for] loop of [encodeEdgeProperties] from column [i] on.  The
    growable staging buffer is represented by the bytes written to it,
    which is what [bytes.slice(0, offset)] returns. *)
Fixpoint encodeColumns (properties : EdgeProperties) (columns : list ColumnMeta)
         (i : Z) : result (list byte) :=
  match columns with
  | [] => Ok []
  | column :: rest =>
      match prop_get (name column) properties with
      | VNull | VUndefined => encodeColumns properties rest (i + 1)
      | value =>
          payload <- encodeValue (type column) value ;;
          tail <- encodeColumns properties rest (i + 1) ;;
          Ok (setUint 2 i ++ payload ++ tail)
      end
  end.

Definition encodeEdgeProperties (properties : option EdgeProperties)
           (columns : option (list ColumnMeta)) : result (list byte) :=
  match columns, properties with
  | Some (c :: cs), Some props => encodeColumns props (c :: cs) 0
  | _, _ => Ok []
  end.

(** [`${n}`] for a number. *)
Definition numberToString (n : number) : string :=
  match Float.to_Z n with
  | Some z => if Z.abs z <? 10 ^ 21 then string_of_Z z else formatNumber n
  | None => formatNumber n
  end.

(** [featureCount] is the length of an array, an integer; the comparisons
    are those of numbers, and [setUint32] stores the integer part of its
    argument modulo 2^32 (0 for NaN and the infinities). *)
Definition buildEdgeRecord (edge : EdgeInput.t) (columns : option (list ColumnMeta))
           (featureCount : Z) : result (list byte) :=
  let from := EdgeInput.from edge in
  let to := EdgeInput.to edge in
  let count := Float.of_Z featureCount in
  if Float.ltb from 0 || Float.leb count from then
    Throw (Error ("Invalid 'from' index: " ++ numberToString from
                  ++ ". Must be between 0 and " ++ string_of_Z (featureCount - 1)))
  else if Float.ltb to 0 || Float.leb count to then
    Throw (Error ("Invalid 'to' index: " ++ numberToString to
                  ++ ". Must be between 0 and " ++ string_of_Z (featureCount - 1)))
  else if Float.eqb from to then
    Throw (Error ("Self-loops are not allowed: from=" ++ numberToString from
                  ++ ", to=" ++ numberToString to))
  else
    propsBytes <- encodeEdgeProperties (EdgeInput.properties edge) columns ;;
    let size := 8 + len propsBytes in
    Ok (setUint 4 size ++ setUint 4 (Float.trunc from) ++ setUint 4 (Float.trunc to)
          ++ propsBytes).

Definition buildGraphSection (adjacencyList : AdjacencyListInput) (featureCount : Z)
  : result (list byte) :=
  edgeColumns <- introspectEdgeColumns (edges adjacencyList) ;;
  let graphHeader := buildGraphHeader (len (edges adjacencyList)) edgeColumns in
  edgeBuffers <- mapM (fun edge => buildEdgeRecord edge edgeColumns featureCount)
                      (edges adjacencyList) ;;
  Ok (setUint 4 (len graphHeader) ++ graphHeader ++ List.concat edgeBuffers).

(** ** graph.ts: the reader *)

(** The [for] loop of [parseGraphHeader]; [pos] is relative to [offset]. *)
Fixpoint parseColumns (n : nat) (bytes : Uint8Array.t) (view : DataView.t)
         (offset pos : Z) : result (list ColumnMeta) :=
  match n with
  | O => Ok []
  | S n' =>
      nameLen <- DataView.getUint16 view pos ;;
      let pos := pos + 2 in
      let nameBytes := Uint8Array.subarray bytes (offset + pos) (offset + pos + nameLen) in
      let name := textDecoder_decode (Uint8Array.to_list nameBytes) in
      let pos := pos + nameLen in
      let type := option_map byte.unsigned (Uint8Array.get bytes (offset + pos)) in
      let pos := pos + 1 in
      rest <- parseColumns n' bytes view offset pos ;;
      Ok ({| name := name; type := type |} :: rest)
  end.

Definition parseGraphHeader (bytes : Uint8Array.t) (offset : Z) (_headerSize : Z)
  : result GraphHeaderMeta :=
  view <- DataView.new (Uint8Array.buffer bytes) (Uint8Array.byteOffset bytes + offset) ;;
  edgeCount <- DataView.getUint32 view 0 ;;
  columnCount <- DataView.getUint16 view 4 ;;
  edgeColumns <- parseColumns (Z.to_nat columnCount) bytes view offset 6 ;;
  Ok {| edgeCount := edgeCount;
        edgeColumns := match edgeColumns with
                       | [] => None
                       | _ :: _ => Some edgeColumns
                       end |}.

(** [bytes.subarray(offset, offset + len)] as the bytes it shows. *)
Definition window (bytes : Uint8Array.t) (offset l : Z) : list byte :=
  Uint8Array.to_list (Uint8Array.subarray bytes offset (offset + l)).

(** The [switch (column.type)] of [parseEdgeProperties]: the decoded value
    and the offset after it. *)
Definition readValue (bytes : Uint8Array.t) (view : DataView.t) (t : option Z)
           (offset : Z) : result (JsValue * Z) :=
  match ColumnType.of_tag t with
  | Some ColumnType.Bool =>
      b <- DataView.getUint8 view offset ;; Ok (VBool (negb (b =? 0)), offset + 1)
  | Some ColumnType.Byte =>
      v <- DataView.getInt8 view offset ;; Ok (VNumber (Float.of_Z v), offset + 1)
  | Some ColumnType.UByte =>
      v <- DataView.getUint8 view offset ;; Ok (VNumber (Float.of_Z v), offset + 1)
  | Some ColumnType.Short =>
      v <- DataView.getInt16 view offset ;; Ok (VNumber (Float.of_Z v), offset + 2)
  | Some ColumnType.UShort =>
      v <- DataView.getUint16 view offset ;; Ok (VNumber (Float.of_Z v), offset + 2)
  | Some ColumnType.Int =>
      v <- DataView.getInt32 view offset ;; Ok (VNumber (Float.of_Z v), offset + 4)
  | Some ColumnType.UInt =>
      v <- DataView.getUint32 view offset ;; Ok (VNumber (Float.of_Z v), offset + 4)
  | Some ColumnType.Long =>
      v <- DataView.getBigInt64 view offset ;; Ok (VNumber (Float.of_Z v), offset + 8)
  | Some ColumnType.ULong =>
      v <- DataView.getBigUint64 view offset ;; Ok (VNumber (Float.of_Z v), offset + 8)
  | Some ColumnType.Float =>
      v <- DataView.getFloat32 view offset ;; Ok (VNumber v, offset + 4)
  | Some ColumnType.Double =>
      v <- DataView.getFloat64 view offset ;; Ok (VNumber v, offset + 8)
  | Some ColumnType.DateTime | Some ColumnType.String =>
      l <- DataView.getUint32 view offset ;;
      let offset := offset + 4 in
      Ok (VString (textDecoder_decode (window bytes offset l)), offset + l)
  | Some ColumnType.Json =>
      l <- DataView.getUint32 view offset ;;
      let offset := offset + 4 in
      let str := textDecoder_decode (window bytes offset l) in
      v <- JSON_parse str ;;
      Ok (v, offset + l)
  | Some ColumnType.Binary =>
      l <- DataView.getUint32 view offset ;;
      let offset := offset + 4 in
      Ok (VBinary (Uint8Array.slice bytes offset (offset + l)), offset + l)
  | None => Throw (Error ("Unknown column type: " ++ show_type t))
  end.

(** One iteration of the [while (offset < bytes.length)] loop of
    [parseEdgeProperties], from the loop variables [(offset, properties)]:
    [None] when the loop is left (condition false, or [break]), the
    variables after the iteration otherwise. *)
Definition parseStep (bytes : Uint8Array.t) (view : DataView.t)
           (columns : list ColumnMeta) (offset : Z) (properties : EdgeProperties)
  : result (option (Z * EdgeProperties)) :=
  if offset <? Uint8Array.length bytes then
    colIndex <- DataView.getUint16 view offset ;;
    let offset := offset + 2 in
    if len columns <=? colIndex then Ok None
    else
      match nth_error columns (Z.to_nat colIndex) with
      | Some column =>
          vo <- readValue bytes view (type column) offset ;;
          Ok (Some (snd vo, prop_set (name column) (fst vo) properties))
      | None => Ok None
      end
  else Ok None.

(** The loop.  Every iteration advances [offset] by at least two, so
    [fuel] equal to the length of the region is never exhausted while the
    loop condition holds (lemma [parseProperties_fuel]). *)
Fixpoint parseProperties (fuel : nat) (bytes : Uint8Array.t) (view : DataView.t)
         (columns : list ColumnMeta) (offset : Z) (properties : EdgeProperties)
  : result EdgeProperties :=
  match fuel with
  | O => Ok properties
  | S fuel' =>
      r <- parseStep bytes view columns offset properties ;;
      match r with
      | Some (offset', properties') =>
          parseProperties fuel' bytes view columns offset' properties'
      | None => Ok properties
      end
  end.

Definition parseEdgeProperties (bytes : Uint8Array.t)
           (columns : option (list ColumnMeta)) : result EdgeProperties :=
  match columns with
  | Some (c :: cs) =>
      if Uint8Array.length bytes =? 0 then Ok []
      else
        view <- DataView.new (Uint8Array.buffer bytes) (Uint8Array.byteOffset bytes) ;;
        parseProperties (Z.to_nat (Uint8Array.length bytes)) bytes view (c :: cs) 0 []
  | _ => Ok []
  end.

Definition parseEdge (bytes : Uint8Array.t) (offset size : Z)
           (columns : option (list ColumnMeta)) : result Edge.t :=
  view <- DataView.new (Uint8Array.buffer bytes) (Uint8Array.byteOffset bytes + offset) ;;
  from <- DataView.getUint32 view 0 ;;
  to <- DataView.getUint32 view 4 ;;
  properties <-
    match columns with
    | Some (c :: cs) =>
        if 8 <? size then
          let propsBytes := Uint8Array.subarray bytes (offset + 8) (offset + size) in
          parseEdgeProperties propsBytes columns
        else Ok []
    | _ => Ok []
    end ;;
  Ok {| Edge.from := from; Edge.to := to; Edge.properties := properties |}.

(** [new DataView(bytes.buffer, bytes.byteOffset + offset).getUint32(0, true)] *)
Definition readSize (bytes : Uint8Array.t) (offset : Z) : result Z :=
  view <- DataView.new (Uint8Array.buffer bytes) (Uint8Array.byteOffset bytes + offset) ;;
  DataView.getUint32 view 0.

Definition parseGraphSectionHeader (bytes : Uint8Array.t) (offset : Z)
  : result GraphHeaderMeta :=
  headerSize <- readSize bytes offset ;;
  parseGraphHeader bytes (offset + SIZE_PREFIX_LEN) headerSize.

(** The [for] loop of [parseGraphSection], [n] edges still to read. *)
Fixpoint parseEdges (n : nat) (bytes : Uint8Array.t) (offset : Z)
         (edgeColumns : option (list ColumnMeta)) : result (list Edge.t) :=
  match n with
  | O => Ok []
  | S n' =>
      edgeSize <- readSize bytes offset ;;
      edge <- parseEdge bytes (offset + SIZE_PREFIX_LEN) edgeSize edgeColumns ;;
      rest <- parseEdges n' bytes (offset + (SIZE_PREFIX_LEN + edgeSize)) edgeColumns ;;
      Ok (edge :: rest)
  end.

Definition parseGraphSection (bytes : Uint8Array.t) (offset : Z)
  : result (list Edge.t) :=
  headerSize <- readSize bytes offset ;;
  let offset := offset + SIZE_PREFIX_LEN in
  h <- parseGraphHeader bytes offset headerSize ;;
  let offset := offset + headerSize in
  parseEdges (Z.to_nat (edgeCount h)) bytes offset (edgeColumns h).

(** *** The streaming reader

    The generator [deserializeGraphStream] is a state machine: its state
    is the local variables that live across a [yield]. *)
Record GraphStream : Type :=
  { s_bytes : Uint8Array.t;
    s_offset : Z;
    s_i : Z;
    s_edgeCount : Z;
    s_edgeColumns : option (list ColumnMeta) }.

(** The generator body up to the [for] loop. *)
Definition deserializeGraphStream (bytes : Uint8Array.t) (graphOffset : Z)
  : result GraphStream :=
  let offset := graphOffset in
  headerSize <- readSize bytes offset ;;
  let offset := offset + SIZE_PREFIX_LEN in
  h <- parseGraphHeader bytes offset headerSize ;;
  let offset := offset + headerSize in
  Ok {| s_bytes := bytes; s_offset := offset; s_i := 0;
        s_edgeCount := edgeCount h; s_edgeColumns := edgeColumns h |}.

(** One turn of the [for] loop: [None] when the generator returns, the
    yielded edge and the state to resume from otherwise. *)
Definition stream_next (st : GraphStream) : result (option (Edge.t * GraphStream)) :=
  if s_i st <? s_edgeCount st then
    edgeSize <- readSize (s_bytes st) (s_offset st) ;;
    edge <- parseEdge (s_bytes st) (s_offset st + SIZE_PREFIX_LEN) edgeSize
                      (s_edgeColumns st) ;;
    Ok (Some (edge,
              {| s_bytes := s_bytes st;
                 s_offset := s_offset st + (SIZE_PREFIX_LEN + edgeSize);
                 s_i := s_i st + 1;
                 s_edgeCount := s_edgeCount st;
                 s_edgeColumns := s_edgeColumns st |}))
  else Ok None.

End Graph.

(** ** The staging buffer of [encodeEdgeProperties]

    [encodeColumns] represents the staging buffer by the bytes written to
    it.  This module has the buffer itself: its capacity, its contents, the
    write offset, the closure [prep] that grows it, and a write of a chunk
    at the offset as [view.set*] and [bytes.set] perform it, which raises
    when the chunk does not fit.  Every case of the [switch] is a [prep]
    followed by writes of no more bytes than were prepared. *)

Module Staging.

Record t : Type := make { capacity : Z; bytes : list byte; offset : Z }.

Definition initial : t := make 256 (repeat Byte.x00 256) 0.

Definition prep (size : Z) (st : t) : t :=
  if offset st + size <? capacity st then st
  else
    let capacity' := Z.max (capacity st + size) (capacity st * 2) in
    make capacity'
         (bytes st ++ repeat Byte.x00 (Z.to_nat (capacity' - capacity st)))
         (offset st).

(** A write of [chunk] at [offset], then [offset += chunk.length]. *)
Definition write (chunk : list byte) (st : t) : result t :=
  if offset st + len chunk <=? capacity st
  then Ok (make (capacity st)
                (firstn (Z.to_nat (offset st)) (bytes st) ++ chunk
                   ++ skipn (Z.to_nat (offset st + len chunk)) (bytes st))
                (offset st + len chunk))
  else Throw RangeError.

(** [bytes.slice(0, offset)] *)
Definition slice (st : t) : list byte := firstn (Z.to_nat (offset st)) (bytes st).

Definition wf (st : t) : Prop :=
  len (bytes st) = capacity st /\ 0 <= offset st <= capacity st.

End Staging.

(** ** geojson/featurecollection.ts *)

(** [HeaderMeta]: the two fields the graph code reads, and the rest of the
    feature schema (geometry type, columns) as one opaque component. *)
Record HeaderMeta (Schema : Type) : Type :=
  { schema : Schema; featuresCount : Z; indexNodeSize : Z }.
Arguments schema {Schema} h.
Arguments featuresCount {Schema} h.
Arguments indexNodeSize {Schema} h.

Record FlatGeoGraphBufMeta (Schema : Type) : Type :=
  { features : HeaderMeta Schema; graph : option GraphHeaderMeta }.
Arguments features {Schema} f.
Arguments graph {Schema} f.

(** [DeserializeGraphResult<T>]; [adjacencyList] is the list of edges of the
    [AdjacencyList] object. *)
Record DeserializeGraphResult (T : Type) : Type :=
  { result_features : list T; adjacencyList : list Edge.t }.
Arguments result_features {T} d.
Arguments adjacencyList {T} d.

(** The FlatGeobuf feature codec the graph code is layered on
    ([generic/featurecollection], [generic/feature], [header-meta],
    [packedrtree]). *)
Class FeatureCodec : Type := {
  GeoJsonFeature : Type;
  IGeoJsonFeature : Type;
  Schema : Type;
  (** [inferGeometryType] and [mapColumn] over the collection *)
  introspectSchema : list GeoJsonFeature -> Schema;
  buildHeader : HeaderMeta Schema -> Z -> list byte;
  (** geometry parsing followed by [buildFeature] *)
  buildFeature : GeoJsonFeature -> HeaderMeta Schema -> result (list byte);
  (** [fromByteBuffer] on a ByteBuffer over [bytes] positioned at the given offset *)
  fromByteBuffer : Uint8Array.t -> Z -> result (HeaderMeta Schema);
  calcTreeSize : Z -> Z -> Z;
  (** [genericDeserialize(bytes, fromFeature)] run to completion *)
  genericDeserialize : Uint8Array.t -> result (list IGeoJsonFeature)
}.

Section FeatureCollection.

Context {RT : JsRuntime} {FC : FeatureCodec}.

Definition introspectHeaderMeta (features : list GeoJsonFeature) : HeaderMeta Schema :=
  {| schema := introspectSchema features;
     featuresCount := len features;
     indexNodeSize := 0 |}.

Definition serialize (features : list GeoJsonFeature)
           (adjacencyList : option AdjacencyListInput) (crsCode : Z)
  : result (list byte) :=
  let headerMeta := introspectHeaderMeta features in
  let header := buildHeader headerMeta crsCode in
  encoded <- mapM (fun f => buildFeature f headerMeta) features ;;
  graphSection <- match adjacencyList with
                  | Some a => g <- buildGraphSection a (len features) ;; Ok g
                  | None => Ok []
                  end ;;
  Ok (magicbytes ++ header ++ List.concat encoded ++ graphSection).

(** The [while] loop of [calculateFeaturesEndOffset], [n] features still
    to skip. *)
Fixpoint skipFeatures (n : nat) (bytes : Uint8Array.t) (offset : Z) : Z :=
  match n with
  | O => offset
  | S n' =>
      if offset <? Uint8Array.length bytes then
        let featureLength := bb_readUint32 bytes offset in
        skipFeatures n' bytes (offset + (SIZE_PREFIX_LEN + featureLength))
      else offset
  end.

Definition calculateFeaturesEndOffset (bytes : Uint8Array.t)
           (headerMeta : HeaderMeta Schema) : Z :=
  let headerLength := bb_readUint32 bytes (len magicbytes) in
  let offset := len magicbytes + SIZE_PREFIX_LEN + headerLength in
  let offset := if 0 <? indexNodeSize headerMeta
                then offset + calcTreeSize (featuresCount headerMeta)
                                           (indexNodeSize headerMeta)
                else offset in
  skipFeatures (Z.to_nat (featuresCount headerMeta)) bytes offset.

(** The observer: a callback with a state of its own, which it may update
    and which is kept when it throws. *)
Definition FlatGeoGraphBufMetaFn (S : Type) : Type :=
  FlatGeoGraphBufMeta Schema -> S -> S * result unit.

(** [deserialize]: the final state of the observer and the outcome. *)
Definition deserialize {S : Type} (bytes : Uint8Array.t)
           (metaFn : option (FlatGeoGraphBufMetaFn S)) (s : S)
  : S * result (DeserializeGraphResult IGeoJsonFeature) :=
  match fromByteBuffer bytes (len magicbytes) with
  | Throw e => (s, Throw e)
  | Ok headerMeta =>
      let featuresEndOffset := calculateFeaturesEndOffset bytes headerMeta in
      let hasGraphSection := featuresEndOffset <? Uint8Array.length bytes in
      match (if hasGraphSection
             then h <- parseGraphSectionHeader bytes featuresEndOffset ;; Ok (Some h)
             else Ok None) with
      | Throw e => (s, Throw e)
      | Ok graphMeta =>
          let called :=
            match metaFn with
            | Some f => f {| features := headerMeta; graph := graphMeta |} s
            | None => (s, Ok tt)
            end in
          (fst called,
           _ <- snd called ;;
           fs <- genericDeserialize bytes ;;
           es <- (if hasGraphSection
                  then parseGraphSection bytes featuresEndOffset
                  else Ok []) ;;
           Ok {| result_features := fs; adjacencyList := es |})
      end
  end.

(** The generator [deserializeGraphEdges]: finished at once when there is
    no graph section, delegating to [deserializeGraphStream] otherwise. *)
Inductive EdgeStream : Type :=
| Finished
| Delegating (st : GraphStream).

Definition deserializeGraphEdges (bytes : Uint8Array.t) : result EdgeStream :=
  headerMeta <- fromByteBuffer bytes (len magicbytes) ;;
  let featuresEndOffset := calculateFeaturesEndOffset bytes headerMeta in
  if Uint8Array.length bytes <=? featuresEndOffset then Ok Finished
  else st <- deserializeGraphStream bytes featuresEndOffset ;; Ok (Delegating st).

Definition next (g : EdgeStream) : result (option (Edge.t * EdgeStream)) :=
  match g with
  | Finished => Ok None
  | Delegating st =>
      r <- stream_next st ;;
      Ok (match r with
          | Some (edge, st') => Some (edge, Delegating st')
          | None => None
          end)
  end.

(** The number of edges a generator has still to yield. *)
Definition remaining (g : EdgeStream) : nat :=
  match g with
  | Finished => O
  | Delegating st => Z.to_nat (s_edgeCount st - s_i st)
  end.

(** [fuel] bounds the number of edges taken; [remaining g] is enough,
    since [next] yields only while [i < edgeCount]. *)
Fixpoint drain (fuel : nat) (g : EdgeStream) : list Edge.t * option JsError :=
  match next g with
  | Throw e => ([], Some e)
  | Ok None => ([], None)
  | Ok (Some (edge, g')) =>
      match fuel with
      | O => ([edge], None)
      | S fuel' => let r := drain fuel' g' in (edge :: fst r, snd r)
      end
  end.

(** [for await (const edge of deserializeGraphEdges(bytes)) edges.push(edge)]:
    the edges yielded, in order, and the exception that ended the
    iteration, if one did. *)
Definition collectEdges (bytes : Uint8Array.t) : list Edge.t * option JsError :=
  match deserializeGraphEdges bytes with
  | Throw e => ([], Some e)
  | Ok g => drain (remaining g) g
  end.

End FeatureCollection.

(** ** A reference engine and feature codec

    The model is parametric in the engine and in the feature codec.  To run
    it on concrete inputs, this module fixes both: text is UTF-8 held in a
    [string]; JSON is restricted to the texts [null], [true], [false],
    [[]] and [{}]; the coercions of ill-typed values are not implemented
    and raise [TypeError]; of the numbers that are not integers only NaN
    and the infinities are rendered.  A feature is its encoded body; the feature
    header is a size prefix followed by the feature count (u32) and the
    index node size (u16). *)

Module Reference.

Definition stringify (v : JsValue) : result string :=
  match v with
  | VNull => Ok "null"%string
  | VBool true => Ok "true"%string
  | VBool false => Ok "false"%string
  | VArray [] => Ok "[]"%string
  | VObject [] => Ok "{}"%string
  | VFunction _ => Ok EmptyString
  | _ => Throw TypeError
  end.

Definition parse (s : string) : result JsValue :=
  if String.eqb s "null" then Ok VNull
  else if String.eqb s "true" then Ok (VBool true)
  else if String.eqb s "false" then Ok (VBool false)
  else if String.eqb s "[]" then Ok (VArray [])
  else if String.eqb s "{}" then Ok (VObject [])
  else Throw SyntaxError.

Definition format (n : number) : string :=
  match Float.unpack 52 11 n with
  | Float.FNaN => "NaN"%string
  | Float.FInf false => "Infinity"%string
  | Float.FInf true => "-Infinity"%string
  | _ => EmptyString
  end.

#[export] Instance runtime : JsRuntime :=
  {| textEncoder_encode := list_byte_of_string;
     textDecoder_decode := string_of_list_byte;
     JSON_stringify := stringify;
     JSON_parse := parse;
     formatNumber := format;
     coerceToNumber := fun _ => Throw TypeError;
     coerceToBigInt := fun _ => Throw TypeError;
     coerceToString := fun _ => Throw TypeError;
     coerceToBlob := fun _ => Throw TypeError |}.

Definition header (h : HeaderMeta unit) (crsCode : Z) : list byte :=
  setUint 4 6 ++ setUint 4 (featuresCount h) ++ setUint 2 (indexNodeSize h).

Definition readHeader (bytes : Uint8Array.t) (pos : Z) : result (HeaderMeta unit) :=
  view <- DataView.new (Uint8Array.buffer bytes) (Uint8Array.byteOffset bytes + pos) ;;
  n <- DataView.getUint32 view 4 ;;
  s <- DataView.getUint16 view 8 ;;
  Ok {| schema := tt; featuresCount := n; indexNodeSize := s |}.

(** The packed R-tree sizing: levels of [ceil(n / nodeSize)] nodes down to
    a single root, 40 bytes a node. *)
Fixpoint treeNodes (fuel : nat) (n nodeSize : Z) : Z :=
  match fuel with
  | O => 0
  | S fuel' =>
      let n' := (n + nodeSize - 1) / nodeSize in
      if n' =? 1 then n' else n' + treeNodes fuel' n' nodeSize
  end.

Definition treeSize (numItems nodeSize : Z) : Z :=
  let nodeSize := Z.min (Z.max nodeSize 2) 65535 in
  (numItems + treeNodes (Z.to_nat numItems) numItems nodeSize) * 40.

Fixpoint readFeatures (n : nat) (bytes : Uint8Array.t) (offset : Z)
  : result (list (list byte)) :=
  match n with
  | O => Ok []
  | S n' =>
      size <- readSize bytes offset ;;
      rest <- readFeatures n' bytes (offset + 4 + size) ;;
      Ok (Uint8Array.slice bytes (offset + 4) (offset + 4 + size) :: rest)
  end.

Definition readAll (bytes : Uint8Array.t) : result (list (list byte)) :=
  if isValidMagicBytes bytes then
    h <- readHeader bytes 8 ;;
    hl <- readSize bytes 8 ;;
    let offset := 12 + hl in
    let offset := if 0 <? indexNodeSize h
                  then offset + treeSize (featuresCount h) (indexNodeSize h)
                  else offset in
    readFeatures (Z.to_nat (featuresCount h)) bytes offset
  else Throw (Error "Not a FlatGeobuf file").

#[export] Instance codec : FeatureCodec :=
  {| GeoJsonFeature := list byte;
     IGeoJsonFeature := list byte;
     Schema := unit;
     introspectSchema := fun _ => tt;
     buildHeader := header;
     buildFeature := fun f _ => Ok (setUint 4 (len f) ++ f);
     fromByteBuffer := readHeader;
     calcTreeSize := treeSize;
     genericDeserialize := readAll |}.

(** Bytes written as numbers. *)
Definition hex (l : list Z) : list byte := map byte.of_Z l.

End Reference.

(** ** Vocabulary of the statements *)

(** An edge that carries no property: no map, or an empty one. *)
Definition noProperties (e : EdgeInput.t) : Prop :=
  EdgeInput.properties e = None \/ EdgeInput.properties e = Some [].

(** The type table of the specification's schema inference. *)
Definition specColumnType (v : JsValue) : ColumnType.t :=
  match v with
  | VBool _ => ColumnType.Bool
  | VNumber _ => ColumnType.Double
  | VString _ | VNull => ColumnType.String
  | VBinary _ => ColumnType.Binary
  | VArray _ | VObject _ | VUndefined | VFunction _ => ColumnType.Json
  end.

Definition specColumn (kv : string * JsValue) : ColumnMeta :=
  {| name := fst kv; type := Some (ColumnType.tag (specColumnType (snd kv))) |}.

(** A value of one of the kinds the specification's type table lists:
    anything but [undefined] and a function. *)
Definition inferable (v : JsValue) : bool :=
  match v with
  | VUndefined | VFunction _ => false
  | _ => true
  end.






(** The bytes of a column in the graph header: the length of the encoded
    name, the encoded name, the type. *)
Definition columnBytes {RT : JsRuntime} (nm : string) (t : ColumnType.t) : list byte :=
  setUint 2 (len (textEncoder_encode nm)) ++ textEncoder_encode nm
    ++ [byte.of_Z (ColumnType.tag t)].

(** The graph header for [n] edges whose schema is taken from the property
    map [props] with the specification's type table. *)
Definition specHeader {RT : JsRuntime} (n : Z) (props : EdgeProperties) : list byte :=
  setUint 4 n ++ setUint 2 (len props)
    ++ List.concat (map (fun kv => columnBytes (fst kv) (specColumnType (snd kv))) props).

(** A file that holds, after the magic bytes, the FlatGeobuf header and one
    entry for each feature, a graph section made of the size of the graph
    header [gh], [gh] itself and [edgeCount] records. *)
Definition fileWithGraphHeader {FC : FeatureCodec} (features : list GeoJsonFeature)
           (crsCode : Z) (edgeCount : nat) (gh bytes : list byte) : Prop :=
  exists encoded records,
    bytes = magicbytes ++ buildHeader (introspectHeaderMeta features) crsCode
              ++ List.concat encoded ++ setUint 4 (len gh) ++ gh ++ List.concat records
    /\ List.length encoded = List.length features
    /\ List.length records = edgeCount.

(** The errors that reading a record can raise: a read outside the buffer,
    a column whose type has no case in the decoder, an error of
    [JSON.parse]. *)
Definition readError {RT : JsRuntime} (cols : option (list ColumnMeta)) (e : JsError)
  : Prop :=
  e = RangeError
  \/ (exists c, In c (match cols with Some cs => cs | None => [] end)
                /\ ColumnType.of_tag (type c) = None
                /\ e = Error ("Unknown column type: " ++ show_type (type c)))
  \/ (exists text, JSON_parse text = Throw e).


(** The four bytes at absolute position [p] of the buffer of [bytes], as a
    little-endian number. *)
Definition u32At (bytes : Uint8Array.t) (p : Z) : Z :=
  le_combine (sub (Uint8Array.buffer bytes) (Uint8Array.byteOffset bytes + p) 4).

(** The edge [parseEdge] returns when it reads no property. *)
Definition bareEdge (bytes : Uint8Array.t) (offset : Z) : Edge.t :=
  {| Edge.from := u32At bytes offset;
     Edge.to := u32At bytes (offset + 4);
     Edge.properties := [] |}.

Definition u16At (bytes : Uint8Array.t) (p : Z) : Z :=
  le_combine (sub (Uint8Array.buffer bytes) (Uint8Array.byteOffset bytes + p) 2).

(** Sample inputs for the reference engine. *)
Module Samples.
Import Reference.

(** An edge between two vertices given by their indices. *)
Definition edge (from to : Z) (properties : option EdgeProperties) : EdgeInput.t :=
  {| EdgeInput.from := Float.of_Z from; EdgeInput.to := Float.of_Z to;
     EdgeInput.properties := properties |}.

(** Two vertices with empty bodies. *)
Definition twoFeatures : list (list byte) := [[]; []].

(** A graph section without columns whose single edge declares size 0. *)
Definition sectionSizeZero : list byte :=
  hex [6; 0; 0; 0;  1; 0; 0; 0;  0; 0;
       0; 0; 0; 0;  7; 0; 0; 0;  9; 0; 0; 0].

(** A graph section with one Bool column ["b"] whose single edge declares
    size 100 although only 11 bytes follow the size prefix. *)
Definition sectionSizePastEnd : list byte :=
  hex [10; 0; 0; 0;  1; 0; 0; 0;  1; 0;  1; 0; 98; 2;
       100; 0; 0; 0;  0; 0; 0; 0;  1; 0; 0; 0;  0; 0; 1].

(** A graph section without columns whose single edge declares size 11
    and carries three property bytes. *)
Definition sectionNoColumns : list byte :=
  hex [6; 0; 0; 0;  1; 0; 0; 0;  0; 0;
       11; 0; 0; 0;  0; 0; 0; 0;  1; 0; 0; 0;  0; 0; 1].

(** A file with the FlatGeobuf magic: no feature, then a graph section. *)
Definition fgbFile : list byte :=
  fgbMagicBytes ++ hex [6; 0; 0; 0;  0; 0; 0; 0;  0; 0] ++ sectionSizeZero.

(** The same file behind eight bytes that are no magic at all. *)
Definition badMagicFile : list byte :=
  hex [1; 2; 3; 4; 5; 6; 7; 8] ++ hex [6; 0; 0; 0;  0; 0; 0; 0;  0; 0] ++ sectionSizeZero.

Definition noFeatures : HeaderMeta unit :=
  {| schema := tt; featuresCount := 0; indexNodeSize := 0 |}.

(** An observer that counts its calls and records whether the meta it was
    given had a graph part with columns. *)
Definition countingObserver : FlatGeoGraphBufMeta unit -> nat * list bool -> (nat * list bool) * result unit :=
  fun meta s =>
    ((S (fst s),
      snd s ++ [match graph meta with
                | Some h => match edgeColumns h with Some _ => true | None => false end
                | None => false
                end]),
     Ok tt).

(** A property region for the schema [b : Bool]: the property, then an
    entry with ordinal 5 and two more bytes. *)
Definition regionUnknownOrdinal : list byte := hex [0; 0; 1;  5; 0;  9; 9].





(** A record of a Bool property, for a schema whose column declares the
    type number 99. *)
Definition recordUnknownType : list byte :=
  hex [0; 0; 0; 0;  1; 0; 0; 0;  0; 0; 1].


(** Three valid edges: none, five properties of the five inferred types
    and a null, then an edge with one in-schema and one out-of-schema
    property. *)
Definition typedGraph : AdjacencyListInput :=
  {| edges := [edge 0 1 None;
               edge 1 0 (Some [("on"%string, VBool true);
                               ("w"%string, VNumber (Float.of_Z 3));
                               ("s"%string, VString "x");
                               ("j"%string, VArray []);
                               ("raw"%string, VBinary (hex [1; 2]));
                               ("z"%string, VNull)]);
               edge 0 1 (Some [("s"%string, VString "y");
                               ("extra"%string, VBool false)])] |}.

Definition typedColumns : list ColumnMeta :=
  [ {| name := "on"; type := Some 2 |};
    {| name := "w"; type := Some 10 |};
    {| name := "s"; type := Some 11 |};
    {| name := "j"; type := Some 12 |};
    {| name := "raw"; type := Some 14 |};
    {| name := "z"; type := Some 11 |} ].


Definition boolColumn : ColumnMeta :=
  {| name := "b"; type := Some (ColumnType.tag ColumnType.Bool) |}.

End Samples.

(** [decodes bytes view columns (o, p) (o', p')]: started with the loop
    variables [(o, p)], the loop of [parseEdgeProperties] completes some
    iterations and stands at [(o', p')]. *)
Inductive decodes {RT : JsRuntime} (bytes : Uint8Array.t) (view : DataView.t)
          (columns : list ColumnMeta) : Z * EdgeProperties -> Z * EdgeProperties -> Prop :=
| decodes_here st : decodes bytes view columns st st
| decodes_step o p o' p' st :
    parseStep bytes view columns o p = Ok (Some (o', p')) ->
    decodes bytes view columns (o', p') st ->
    decodes bytes view columns (o, p) st.

(** *** Vocabulary of the round trip *)

(** A text the engine's encoder and decoder carry unchanged. *)
Definition textRoundtrips {RT : JsRuntime} (s : string) : Prop :=
  textDecoder_decode (textEncoder_encode s) = s.


(** [null] or [undefined]: the values the encoder skips. *)
Definition isNullish (v : JsValue) : bool :=
  match v with
  | VNull | VUndefined => true
  | _ => false
  end.



Definition columnsOf (columns : option (list ColumnMeta)) : list ColumnMeta :=
  match columns with
  | Some cs => cs
  | None => []
  end.


(** A byte string that starts with its own length as a 32-bit prefix. *)
Definition sizePrefixed (x : list byte) : Prop :=
  exists body, x = setUint 4 (len body) ++ body /\ len body < 2 ^ 32.

(** The feature codec frames what it writes: the features encode, and the
    header and every feature start with their own size. *)
Definition featuresFramed {FC : FeatureCodec} (features : list GeoJsonFeature)
           (crsCode : Z) (encoded : list (list byte)) : Prop :=
  mapM (fun f => buildFeature f (introspectHeaderMeta features)) features = Ok encoded
  /\ sizePrefixed (buildHeader (introspectHeaderMeta features) crsCode)
  /\ Forall sizePrefixed encoded.



(** *** Vocabulary of the further properties *)

(** The column list [parseGraphHeader] returns for a written one: an empty
    list is read back as [null]. *)
Definition readColumns (cols : option (list ColumnMeta)) : option (list ColumnMeta) :=
  match cols with
  | Some (c :: cs) => Some (c :: cs)
  | _ => None
  end.

(** The column types schema inference can produce. *)
Definition inferredTypes : list ColumnType.t :=
  [ColumnType.Bool; ColumnType.Double; ColumnType.String; ColumnType.Json;
   ColumnType.Binary].

(** Two property maps for which the lookup gives the same under every
    column of a schema, where null and undefined count as the same. *)
Definition sameStored (cols : list ColumnMeta) (p p' : EdgeProperties) : Prop :=
  forall c, In c cols ->
    prop_get (name c) p = prop_get (name c) p'
    \/ (isNullish (prop_get (name c) p) = true
        /\ isNullish (prop_get (name c) p') = true).

(** A vertex index as the wire holds it: an unsigned 32-bit number. *)
Definition indexInRange (e : Edge.t) : Prop :=
  0 <= Edge.from e < 2 ^ 32 /\ 0 <= Edge.to e < 2 ^ 32.



(** The staging buffer in use.  Every case of the [switch] of
    [encodeEdgeProperties], and the write of the column ordinal before it,
    is a [prep(size)] followed by writes of chunks that are [size] bytes
    together: [stage] is one such group, [stageAll] the groups of a whole
    call in order. *)
Fixpoint writeAll (chunks : list (list byte)) (st : Staging.t) : result Staging.t :=
  match chunks with
  | [] => Ok st
  | chunk :: rest => st' <- Staging.write chunk st ;; writeAll rest st'
  end.

Definition stage (chunks : list (list byte)) (st : Staging.t) : result Staging.t :=
  writeAll chunks (Staging.prep (len (List.concat chunks)) st).

Fixpoint stageAll (groups : list (list (list byte))) (st : Staging.t) : result Staging.t :=
  match groups with
  | [] => Ok st
  | group :: rest => st' <- stage group st ;; stageAll rest st'
  end.

(** Further sample inputs for the reference engine. *)
Module Cases.
Import Reference.
Import Samples.

(** The file [serialize] writes for two vertices with empty bodies and no
    adjacency list: magic, header, two features. *)
Definition plainFile : list byte :=
  magicbytes ++ hex [6; 0; 0; 0;  2; 0; 0; 0;  0; 0] ++ hex [0; 0; 0; 0;  0; 0; 0; 0].

Definition twoVertices : HeaderMeta unit :=
  {| schema := tt; featuresCount := 2; indexNodeSize := 0 |}.

(** The same two vertices behind a spatial index of node size 16, which
    takes 120 bytes. *)
Definition twoIndexed : HeaderMeta unit :=
  {| schema := tt; featuresCount := 2; indexNodeSize := 16 |}.

Definition indexBytes : list byte := repeat Byte.x00 120.

(** Two edges; the first fixes the schema [on : Bool]. *)
Definition flagGraph : AdjacencyListInput :=
  {| edges := [edge 0 1 (Some [("on"%string, VBool true)]); edge 1 0 None] |}.


Definition flagEdges : list Edge.t :=
  [ {| Edge.from := 0; Edge.to := 1; Edge.properties := [("on"%string, VBool true)] |};
    {| Edge.from := 1; Edge.to := 0; Edge.properties := [] |} ].

(** The graph section of [flagGraph]: header size, header (2 edges, 1
    column named "on" of type 2), a record of size 11, a record of size 8. *)
Definition flagSection : list byte :=
  hex [11; 0; 0; 0;  2; 0; 0; 0;  1; 0;  2; 0; 111; 110; 2;
       11; 0; 0; 0;  0; 0; 0; 0;  1; 0; 0; 0;  0; 0; 1;
       8; 0; 0; 0;  1; 0; 0; 0;  0; 0; 0; 0].

(** A graph section that declares two edges and is cut inside the second
    record. *)
Definition cutSection : list byte :=
  hex [6; 0; 0; 0;  2; 0; 0; 0;  0; 0;
       8; 0; 0; 0;  0; 0; 0; 0;  1; 0; 0; 0;
       8; 0; 0; 0;  5; 0].
End Cases.

(** * Properties *)

Ltac bind_ok H :=
  repeat match type of H with
         | bind ?r _ = Ok _ =>
             let E := fresh "E" in
             destruct r eqn:E; cbn [bind] in H; [|discriminate H]
         end.

Section GraphFacts.

Context {RT : JsRuntime}.

Lemma hasProperties_false e : noProperties e -> hasProperties e = false.
Proof. unfold hasProperties; intros [-> | ->]; reflexivity. Qed.

Lemma find_first {A} (f : A -> bool) pre x post :
  (forall y, In y pre -> f y = false) -> f x = true ->
  find f (pre ++ x :: post) = Some x.
Proof.
  induction pre as [|y pre IH]; simpl; intros Hpre Hx.
  - now rewrite Hx.
  - rewrite (Hpre y) by auto. apply IH; auto.
Qed.

Lemma find_none {A} (f : A -> bool) l :
  (forall y, In y l -> f y = false) -> find f l = None.
Proof.
  induction l as [|y l IH]; simpl; intros H; [reflexivity|].
  rewrite (H y) by auto. apply IH; auto.
Qed.

Lemma prop_get_In k v props :
  NoDup (map fst props) -> In (k, v) props -> prop_get k props = v.
Proof.
  induction props as [|[k' v'] props IH]; simpl; intros Hnd Hin; [contradiction|].
  inversion Hnd as [|? ? Hnot Hnd']; subst.
  destruct Hin as [Heq | Hin].
  - inversion Heq; subst. now rewrite String.eqb_refl.
  - destruct (String.eqb_spec k' k) as [-> | Hne].
    + exfalso. apply Hnot. change k with (fst (k, v)). now apply in_map.
    + now apply IH.
Qed.

Lemma mapM_ok_map {A B} (f : A -> result B) (g : A -> B) l :
  (forall a, In a l -> f a = Ok (g a)) -> mapM f l = Ok (map g l).
Proof.
  induction l as [|a l IH]; simpl; intros H; [reflexivity|].
  rewrite (H a) by auto. simpl. rewrite IH by auto. reflexivity.
Qed.



Lemma mapM_length {A B} (f : A -> result B) l : forall bs,
  mapM f l = Ok bs -> List.length bs = List.length l.
Proof.
  induction l as [|a l IH]; intros bs H; cbn [mapM] in H.
  - now inversion H.
  - bind_ok H. inversion H; subst. cbn [List.length]. f_equal. now apply IH.
Qed.


Lemma mapM_In {A B} (f : A -> result B) l : forall bs b,
  mapM f l = Ok bs -> In b bs -> exists a, In a l /\ f a = Ok b.
Proof.
  induction l as [|a l IH]; intros bs b H Hin; cbn [mapM] in H.
  - inversion H; subst. destruct Hin.
  - bind_ok H. inversion H; subst. destruct Hin as [<-|Hin].
    + exists a. split; [now left|assumption].
    + destruct (IH _ _ eq_refl Hin) as [a' [Ha' Hf]]. exists a'. split; [now right|assumption].
Qed.

Lemma valueToColumnType_spec v :
  inferable v = true -> valueToColumnType v = Ok (specColumnType v).
Proof. destruct v; simpl; congruence. Qed.

End GraphFacts.

Section ReaderFacts.

Context {RT : JsRuntime}.

Lemma DataView_new_ok buf off :
  0 <= off -> off <= len buf -> DataView.new buf off = Ok (DataView.make buf off).
Proof.
  intros H1 H2. unfold DataView.new.
  replace (0 <=? off) with true by lia. replace (off <=? len buf) with true by lia.
  reflexivity.
Qed.

Lemma DataView_new_inv buf off v :
  DataView.new buf off = Ok v -> v = DataView.make buf off /\ 0 <= off <= len buf.
Proof.
  unfold DataView.new.
  destruct (0 <=? off) eqn:E1; destruct (off <=? len buf) eqn:E2;
    cbn [andb]; intros H; inversion H; split; [reflexivity|lia].
Qed.

Lemma getUint_ok n v pos :
  0 <= pos -> DataView.byteOffset v + pos + n <= len (DataView.buffer v) ->
  DataView.getUint n v pos
  = Ok (le_combine (sub (DataView.buffer v) (DataView.byteOffset v + pos) n)).
Proof.
  intros H1 H2. unfold DataView.getUint, DataView.getBytes.
  replace (0 <=? pos) with true by lia.
  replace (DataView.byteOffset v + pos + n <=? len (DataView.buffer v)) with true by lia.
  reflexivity.
Qed.

Lemma getUint_inv n v pos x :
  DataView.getUint n v pos = Ok x ->
  x = le_combine (sub (DataView.buffer v) (DataView.byteOffset v + pos) n)
  /\ 0 <= pos /\ DataView.byteOffset v + pos + n <= len (DataView.buffer v).
Proof.
  unfold DataView.getUint, DataView.getBytes.
  destruct (0 <=? pos) eqn:E1;
    destruct (DataView.byteOffset v + pos + n <=? len (DataView.buffer v)) eqn:E2;
    cbn [andb bind]; intros H; inversion H; repeat split; lia.
Qed.

Lemma parseEdge_indices bytes offset size cols :
  0 <= Uint8Array.byteOffset bytes + offset ->
  Uint8Array.byteOffset bytes + offset + 8 <= len (Uint8Array.buffer bytes) ->
  parseEdge bytes offset size cols =
    (properties <-
       match cols with
       | Some (c :: cs) =>
           if 8 <? size
           then parseEdgeProperties
                  (Uint8Array.subarray bytes (offset + 8) (offset + size)) cols
           else Ok []
       | _ => Ok []
       end ;;
     Ok {| Edge.from := u32At bytes offset;
           Edge.to := u32At bytes (offset + 4);
           Edge.properties := properties |}).
Proof.
  intros H1 H2. unfold parseEdge.
  rewrite DataView_new_ok by lia. cbn [bind].
  unfold DataView.getUint32.
  rewrite !getUint_ok by (cbn [DataView.byteOffset DataView.buffer]; lia).
  cbn [bind DataView.byteOffset DataView.buffer].
  unfold u32At. rewrite Z.add_0_r, Z.add_assoc. reflexivity.
Qed.

Lemma parseGraphHeader_no_columns bytes offset hsz h :
  parseGraphHeader bytes offset hsz = Ok h ->
  u16At bytes (offset + 4) = 0 ->
  edgeColumns h = None.
Proof.
  unfold parseGraphHeader. intros H Hcc. bind_ok H.
  apply DataView_new_inv in E as [-> _].
  apply getUint_inv in E1 as [Ha1 _].
  cbn [DataView.byteOffset DataView.buffer] in Ha1.
  unfold u16At in Hcc. rewrite Z.add_assoc in Hcc. rewrite Hcc in Ha1. subst a1.
  cbn in E2. inversion E2; subst. inversion H; reflexivity.
Qed.

(** C10.  When the column count of the decoded graph header is zero, an
    edge record whose eight index bytes lie in the buffer decodes, for
    every declared size, to its two indices and an empty property map;
    property bytes that follow are not looked at and nothing is raised. *)
Theorem parseEdge_without_columns bytes graphOffset headerSize h offset size :
  parseGraphHeader bytes graphOffset headerSize = Ok h ->
  u16At bytes (graphOffset + 4) = 0 ->
  0 <= Uint8Array.byteOffset bytes + offset ->
  Uint8Array.byteOffset bytes + offset + 8 <= len (Uint8Array.buffer bytes) ->
  edgeColumns h = None /\
  parseEdge bytes offset size (edgeColumns h) = Ok (bareEdge bytes offset).
Proof.
  intros Hh Hcc H1 H2.
  pose proof (parseGraphHeader_no_columns _ _ _ _ Hh Hcc) as Hnone.
  split; [assumption|].
  rewrite parseEdge_indices by assumption. rewrite Hnone. reflexivity.
Qed.

Lemma subarray_past_end bytes offset size :
  0 <= offset -> 0 <= Uint8Array.length bytes ->
  Uint8Array.length bytes <= offset + size ->
  Uint8Array.subarray bytes (offset + 8) (offset + size)
  = Uint8Array.subarray bytes (offset + 8) (Uint8Array.length bytes).
Proof.
  intros H0 HL H. unfold Uint8Array.subarray, Uint8Array.rel.
  replace (offset + size <? 0) with false by lia.
  replace (Uint8Array.length bytes <? 0) with false by lia.
  f_equal. f_equal. lia.
Qed.

Lemma parseEdgeProperties_empty bytes cols :
  Uint8Array.length bytes = 0 -> parseEdgeProperties bytes cols = Ok [].
Proof.
  intros H. unfold parseEdgeProperties. rewrite H.
  destruct cols as [[|c cs]|]; reflexivity.
Qed.

Lemma DataView_new_throw buf off e :
  DataView.new buf off = Throw e -> e = RangeError.
Proof.
  unfold DataView.new. destruct ((0 <=? off) && (off <=? len buf)); congruence.
Qed.

Lemma getUint_throw n v pos e :
  DataView.getUint n v pos = Throw e -> e = RangeError.
Proof.
  unfold DataView.getUint, DataView.getBytes.
  destruct ((0 <=? pos) && (DataView.byteOffset v + pos + n <=? len (DataView.buffer v)));
    cbn [bind]; congruence.
Qed.

Lemma readValue_throw bytes view t offset e :
  readValue bytes view t offset = Throw e ->
  e = RangeError
  \/ (ColumnType.of_tag t = None /\ e = Error ("Unknown column type: " ++ show_type t))
  \/ (exists text, JSON_parse text = Throw e).
Proof.
  unfold readValue, DataView.getUint8, DataView.getInt8, DataView.getUint16,
    DataView.getInt16, DataView.getUint32, DataView.getInt32, DataView.getBigInt64,
    DataView.getBigUint64, DataView.getFloat32, DataView.getFloat64, DataView.getInt.
  destruct (ColumnType.of_tag t) as [[]|];
    try (match goal with
         | |- context [DataView.getUint ?n view offset] =>
             destruct (DataView.getUint n view offset) as [x|e0] eqn:Eg
         end;
         cbn [bind];
         [| intros H; inversion H; subst; left; eapply getUint_throw; eassumption ]).
  all: try discriminate.
  - match goal with
    | |- context [JSON_parse ?s] => destruct (JSON_parse s) as [v|e1] eqn:Ej
    end; cbn [bind]; [discriminate|].
    intros H. inversion H; subst. right. right. eexists. eassumption.
  - intros H. inversion H; subst. right. left. split; reflexivity.
Qed.

Lemma parseStep_throw bytes view cols o p e :
  parseStep bytes view cols o p = Throw e -> readError (Some cols) e.
Proof.
  unfold parseStep. destruct (o <? Uint8Array.length bytes); [|discriminate].
  destruct (DataView.getUint16 view o) as [ix|e0] eqn:Eg; cbn [bind].
  2:{ intros H. inversion H; subst. left. eapply getUint_throw; eassumption. }
  destruct (len cols <=? ix); [discriminate|].
  destruct (nth_error cols (Z.to_nat ix)) as [c|] eqn:En; [|discriminate].
  destruct (readValue bytes view (type c) (o + 2)) as [vo|e1] eqn:Er; cbn [bind];
    [discriminate|].
  intros H. inversion H; subst.
  destruct (readValue_throw _ _ _ _ _ Er) as [->|[[Ht ->]|Hj]].
  - now left.
  - right. left. exists c. split; [eapply nth_error_In; eassumption|]. now split.
  - right. right. exact Hj.
Qed.

Lemma parseProperties_throw bytes view cols fuel : forall o p e,
  parseProperties fuel bytes view cols o p = Throw e -> readError (Some cols) e.
Proof.
  induction fuel as [|fuel IH]; intros o p e H; cbn [parseProperties] in H;
    [discriminate|].
  destruct (parseStep bytes view cols o p) as [r|e0] eqn:Es; cbn [bind] in H.
  - destruct r as [[o' p']|]; [eapply IH; eassumption|discriminate].
  - inversion H; subst. eapply parseStep_throw; eassumption.
Qed.

Lemma parseEdgeProperties_throw bytes cols e :
  parseEdgeProperties bytes cols = Throw e -> readError cols e.
Proof.
  unfold parseEdgeProperties. destruct cols as [[|c cs]|]; try discriminate.
  destruct (Uint8Array.length bytes =? 0); [discriminate|].
  destruct (DataView.new (Uint8Array.buffer bytes) (Uint8Array.byteOffset bytes))
    as [view|e0] eqn:Ev; cbn [bind].
  - apply parseProperties_throw.
  - intros H. inversion H; subst. left. eapply DataView_new_throw; eassumption.
Qed.

Lemma parseEdge_throw bytes offset size cols e :
  parseEdge bytes offset size cols = Throw e -> readError cols e.
Proof.
  unfold parseEdge.
  destruct (DataView.new (Uint8Array.buffer bytes) (Uint8Array.byteOffset bytes + offset))
    as [view|e0] eqn:Ev; cbn [bind].
  2:{ intros H. inversion H; subst. left. eapply DataView_new_throw; eassumption. }
  destruct (DataView.getUint32 view 0) as [from|e1] eqn:Ef; cbn [bind].
  2:{ intros H. inversion H; subst. left. eapply getUint_throw; eassumption. }
  destruct (DataView.getUint32 view 4) as [to|e2] eqn:Et; cbn [bind].
  2:{ intros H. inversion H; subst. left. eapply getUint_throw; eassumption. }
  destruct cols as [[|c cs]|]; cbn [bind]; try discriminate.
  destruct (8 <? size); cbn [bind]; [|discriminate].
  destruct (parseEdgeProperties
              (Uint8Array.subarray bytes (offset + 8) (offset + size)) (Some (c :: cs)))
    as [props|e3] eqn:Ep; cbn [bind]; [discriminate|].
  intros H. inversion H; subst. eapply parseEdgeProperties_throw; eassumption.
Qed.

Lemma parseEdge_outside bytes offset size cols :
  len (Uint8Array.buffer bytes) < Uint8Array.byteOffset bytes + offset + 8 ->
  parseEdge bytes offset size cols = Throw RangeError.
Proof.
  intros Hshort. unfold parseEdge.
  destruct (DataView.new (Uint8Array.buffer bytes) (Uint8Array.byteOffset bytes + offset))
    as [view|e0] eqn:Ev; cbn [bind].
  2:{ f_equal. eapply DataView_new_throw; eassumption. }
  apply DataView_new_inv in Ev as [-> Hv].
  destruct (DataView.getUint32
              (DataView.make (Uint8Array.buffer bytes) (Uint8Array.byteOffset bytes + offset)) 0)
    as [from|e1] eqn:Ef; cbn [bind].
  2:{ f_equal. eapply getUint_throw; eassumption. }
  destruct (DataView.getUint32
              (DataView.make (Uint8Array.buffer bytes) (Uint8Array.byteOffset bytes + offset)) 4)
    as [to|e2] eqn:Et; cbn [bind].
  2:{ f_equal. eapply getUint_throw; eassumption. }
  exfalso. apply getUint_inv in Et as [_ [_ H8]].
  cbn [DataView.byteOffset DataView.buffer] in H8. lia.
Qed.

(** C7, in the form the code satisfies.  [parseEdge] validates neither
    the declared size nor the indices.  When the eight index bytes lie in
    the buffer, a declared size of at most 8 (also below 8) gives the two
    indices read, whatever they are, and no property, and a declared
    region that reaches past the end of the array is read as if it ended
    with the array.  When the index bytes do not lie in the buffer a
    [RangeError] is raised.  Whatever [parseEdge] raises is a [RangeError]
    for a read outside the buffer, "Unknown column type" for a column whose
    type has no case in the decoder, or an error of [JSON.parse]: there is
    no error for the declared size. *)
Theorem parseEdge_size_not_validated bytes offset size cols :
  0 <= offset ->
  0 <= Uint8Array.byteOffset bytes ->
  0 <= Uint8Array.length bytes ->
  (Uint8Array.byteOffset bytes + offset + 8 <= len (Uint8Array.buffer bytes) ->
   (size <= 8 -> parseEdge bytes offset size cols = Ok (bareEdge bytes offset))
   /\
   (Uint8Array.length bytes <= offset + size ->
    parseEdge bytes offset size cols
    = parseEdge bytes offset (Uint8Array.length bytes - offset) cols))
  /\
  (len (Uint8Array.buffer bytes) < Uint8Array.byteOffset bytes + offset + 8 ->
   parseEdge bytes offset size cols = Throw RangeError)
  /\
  (forall e, parseEdge bytes offset size cols = Throw e -> readError cols e).
Proof.
  intros H0 Hbo HL.
  split; [|split; [apply parseEdge_outside|intros e; apply parseEdge_throw]].
  intros Hfit. split.
  - intros Hsize. rewrite parseEdge_indices by lia.
    replace (8 <? size) with false by lia.
    destruct cols as [[|c cs]|]; reflexivity.
  - intros Hpast. rewrite !parseEdge_indices by lia.
    destruct cols as [[|c cs]|]; try reflexivity.
    f_equal.
    destruct (8 <? size) eqn:E1;
      destruct (8 <? Uint8Array.length bytes - offset) eqn:E2.
    + rewrite (subarray_past_end bytes offset size) by lia.
      rewrite (subarray_past_end bytes offset (Uint8Array.length bytes - offset)) by lia.
      reflexivity.
    + apply parseEdgeProperties_empty.
      unfold Uint8Array.subarray, Uint8Array.rel; cbn [Uint8Array.length].
      replace (offset + 8 <? 0) with false by lia.
      replace (offset + size <? 0) with false by lia.
      lia.
    + lia.
    + reflexivity.
Qed.

End ReaderFacts.

Section LocatorFacts.

Context {RT : JsRuntime} {FC : FeatureCodec}.

Lemma len_app {A} (l1 l2 : list A) : len (l1 ++ l2) = len l1 + len l2.
Proof. unfold len. rewrite List.length_app. lia. Qed.

Lemma len_nonneg {A} (l : list A) : 0 <= len l.
Proof. unfold len. lia. Qed.

Lemma get_of_list l i :
  Uint8Array.get (Uint8Array.of_list l) i =
    if (0 <=? i) && (i <? len l) then nth_error l (Z.to_nat i) else None.
Proof. reflexivity. Qed.

Lemma get_behind_prefix m m' rest i :
  len m = len m' -> len m <= i ->
  Uint8Array.get (Uint8Array.of_list (m ++ rest)) i
  = Uint8Array.get (Uint8Array.of_list (m' ++ rest)) i.
Proof.
  intros Hlen Hi. rewrite !get_of_list, !len_app, <- Hlen.
  destruct ((0 <=? i) && (i <? len m + len rest)); [|reflexivity].
  unfold len in *.
  rewrite !nth_error_app2 by lia.
  f_equal. lia.
Qed.

Lemma bb_readUint32_behind_prefix m m' rest offset :
  len m = len m' -> len m <= offset ->
  bb_readUint32 (Uint8Array.of_list (m ++ rest)) offset
  = bb_readUint32 (Uint8Array.of_list (m' ++ rest)) offset.
Proof.
  intros Hlen Ho. unfold bb_readUint32.
  rewrite !(get_behind_prefix m m' rest) by (pose proof (len_nonneg m); lia).
  reflexivity.
Qed.

Lemma bb_readUint32_nonneg bytes offset : 0 <= bb_readUint32 bytes offset.
Proof.
  unfold bb_readUint32.
  assert (H : forall i, 0 <= match Uint8Array.get bytes (offset + i) with
                             | Some x => byte.unsigned x
                             | None => 0
                             end).
  { intros i. destruct (Uint8Array.get bytes (offset + i)); [|lia].
    apply byte.unsigned_range. }
  repeat (apply Z.lor_nonneg; split); try apply Z.shiftl_nonneg; apply H.
Qed.

Lemma skipFeatures_behind_prefix m m' rest n : forall offset,
  len m = len m' -> len m <= offset ->
  skipFeatures n (Uint8Array.of_list (m ++ rest)) offset
  = skipFeatures n (Uint8Array.of_list (m' ++ rest)) offset.
Proof.
  induction n as [|n IH]; intros offset Hlen Ho; cbn [skipFeatures]; [reflexivity|].
  cbn [Uint8Array.of_list Uint8Array.length].
  rewrite !len_app, <- Hlen.
  destruct (offset <? len m + len rest); [|reflexivity].
  change (Uint8Array.make (m ++ rest) 0 (len (m ++ rest)))
    with (Uint8Array.of_list (m ++ rest)).
  change (Uint8Array.make (m' ++ rest) 0 (len (m' ++ rest)))
    with (Uint8Array.of_list (m' ++ rest)).
  rewrite (bb_readUint32_behind_prefix m m' rest) by assumption.
  apply IH; [assumption|].
  pose proof (bb_readUint32_nonneg (Uint8Array.of_list (m' ++ rest)) offset).
  unfold SIZE_PREFIX_LEN. lia.
Qed.

Lemma isValidMagicBytes_three b0 b1 b2 tail :
  isValidMagicBytes (Uint8Array.of_list (b0 :: b1 :: b2 :: tail))
  = (byte.unsigned b0 =? 0x66) && (byte.unsigned b1 =? 0x67)
    && ((byte.unsigned b2 =? 0x67) || (byte.unsigned b2 =? 0x62)).
Proof.
  unfold isValidMagicBytes, byte_is. rewrite !get_of_list.
  assert (H : 3 <= len (b0 :: b1 :: b2 :: tail)).
  { unfold len. cbn [List.length]. lia. }
  replace (0 <? len (b0 :: b1 :: b2 :: tail)) with true by lia.
  replace (1 <? len (b0 :: b1 :: b2 :: tail)) with true by lia.
  replace (2 <? len (b0 :: b1 :: b2 :: tail)) with true by lia.
  change (Z.to_nat 0) with 0%nat. change (Z.to_nat 1) with 1%nat.
  change (Z.to_nat 2) with 2%nat.
  cbn [Z.leb Z.compare andb nth_error].
  destruct (byte.unsigned b0 =? 102), (byte.unsigned b1 =? 103),
    (byte.unsigned b2 =? 103), (byte.unsigned b2 =? 98); reflexivity.
Qed.

(** C6, in the form the code satisfies.  The offset locator checks no magic: its result does
    not depend on the first eight bytes of the file, so a file with the
    FlatGeobuf magic, or with no valid magic, is walked like any other.
    The check [isValidMagicBytes] offers to callers looks at the first
    three bytes only, accepting "fgg" and "fgb". *)
Theorem locator_ignores_magic (m m' rest : list byte) (headerMeta : HeaderMeta Schema) :
  len m = 8 -> len m' = 8 ->
  0 <= calcTreeSize (featuresCount headerMeta) (indexNodeSize headerMeta) ->
  calculateFeaturesEndOffset (Uint8Array.of_list (m ++ rest)) headerMeta
  = calculateFeaturesEndOffset (Uint8Array.of_list (m' ++ rest)) headerMeta
  /\
  forall b0 b1 b2 tail,
    isValidMagicBytes (Uint8Array.of_list (b0 :: b1 :: b2 :: tail))
    = (byte.unsigned b0 =? 0x66) && (byte.unsigned b1 =? 0x67)
      && ((byte.unsigned b2 =? 0x67) || (byte.unsigned b2 =? 0x62)).
Proof.
  intros Hm Hm' Htree. split; [|apply isValidMagicBytes_three].
  unfold calculateFeaturesEndOffset.
  change (len magicbytes) with 8.
  rewrite (bb_readUint32_behind_prefix m m' rest) by lia.
  pose proof (bb_readUint32_nonneg (Uint8Array.of_list (m' ++ rest)) 8).
  apply skipFeatures_behind_prefix; [lia|].
  unfold SIZE_PREFIX_LEN.
  destruct (0 <? indexNodeSize headerMeta); lia.
Qed.

(** *** The observer *)

Lemma parseColumns_length n : forall bytes view offset pos cols,
  parseColumns n bytes view offset pos = Ok cols -> List.length cols = n.
Proof.
  induction n as [|n IH]; intros bytes view offset pos cols H; cbn [parseColumns] in H.
  - now inversion H.
  - bind_ok H. inversion H; subst. cbn [List.length]. f_equal. eapply IH; eassumption.
Qed.

Lemma parseGraphHeader_never_empty bytes offset hsz h :
  parseGraphHeader bytes offset hsz = Ok h -> edgeColumns h <> Some [].
Proof.
  unfold parseGraphHeader. intros H. bind_ok H. inversion H; subst.
  cbn [edgeColumns]. destruct a2; discriminate.
Qed.

(** C9.  Once the feature header and, when there is a graph section, the
    graph header are parsed, [deserialize] applies the observer exactly
    once: the observer's final state is one application to its initial
    state, also when features or edges fail to decode afterwards, and an
    exception of the observer ends the call whatever the features and
    edges are.  The [graph] field is absent when there is no graph
    section; [edgeColumns] is never an empty list and is absent when the
    header's column count is zero. *)
Theorem observer_called_once_before_materializing
        {S : Type} bytes (metaFn : FlatGeoGraphBufMetaFn S) (s : S) headerMeta :
  fromByteBuffer bytes (len magicbytes) = Ok headerMeta ->
  let featuresEndOffset := calculateFeaturesEndOffset bytes headerMeta in
  (Uint8Array.length bytes <= featuresEndOffset ->
   let meta := {| features := headerMeta; graph := None |} in
   fst (deserialize bytes (Some metaFn) s) = fst (metaFn meta s)
   /\ forall e, snd (metaFn meta s) = Throw e ->
                snd (deserialize bytes (Some metaFn) s) = Throw e)
  /\
  (featuresEndOffset < Uint8Array.length bytes ->
   forall h, parseGraphSectionHeader bytes featuresEndOffset = Ok h ->
   let meta := {| features := headerMeta; graph := Some h |} in
   fst (deserialize bytes (Some metaFn) s) = fst (metaFn meta s)
   /\ (forall e, snd (metaFn meta s) = Throw e ->
                 snd (deserialize bytes (Some metaFn) s) = Throw e)
   /\ edgeColumns h <> Some []
   /\ (u16At bytes (featuresEndOffset + SIZE_PREFIX_LEN + 4) = 0 ->
       edgeColumns h = None)).
Proof.
  intros Hhdr off. split.
  - intros Hno meta. unfold deserialize. rewrite Hhdr. fold off.
    replace (off <? Uint8Array.length bytes) with false by lia.
    cbn [fst snd]. split; [reflexivity|].
    intros e He. fold meta. rewrite He. reflexivity.
  - intros Hyes h Hh meta. unfold deserialize. rewrite Hhdr. fold off.
    replace (off <? Uint8Array.length bytes) with true by lia.
    rewrite Hh. cbn [bind fst snd]. split; [reflexivity|]. split.
    + intros e He. fold meta. rewrite He. reflexivity.
    + unfold parseGraphSectionHeader in Hh. bind_ok Hh. split.
      * eapply parseGraphHeader_never_empty; eassumption.
      * intros Hcc. eapply parseGraphHeader_no_columns; eassumption.
Qed.

(** *** Streaming and batch *)

Lemma drain_parseEdges n : forall bytes offset i ec cols,
  Z.to_nat (ec - i) = n ->
  let g := Delegating {| s_bytes := bytes; s_offset := offset; s_i := i;
                         s_edgeCount := ec; s_edgeColumns := cols |} in
  match parseEdges n bytes offset cols with
  | Ok es => drain n g = (es, None)
  | Throw e => exists yielded, drain n g = (yielded, Some e)
  end.
Proof.
  induction n as [|n IH]; intros bytes offset i ec cols Hn g.
  - cbn [parseEdges]. subst g. unfold drain, next, stream_next.
    cbn [s_i s_edgeCount]. replace (i <? ec) with false by lia. reflexivity.
  - cbn [parseEdges]. subst g.
    assert (Hstep : forall fuel,
               drain (S fuel) (Delegating {| s_bytes := bytes; s_offset := offset;
                                             s_i := i; s_edgeCount := ec;
                                             s_edgeColumns := cols |})
               = match readSize bytes offset with
                 | Throw e => ([], Some e)
                 | Ok edgeSize =>
                     match parseEdge bytes (offset + SIZE_PREFIX_LEN) edgeSize cols with
                     | Throw e => ([], Some e)
                     | Ok edge =>
                         let r := drain fuel
                                    (Delegating {| s_bytes := bytes;
                                                   s_offset := offset + (SIZE_PREFIX_LEN + edgeSize);
                                                   s_i := i + 1; s_edgeCount := ec;
                                                   s_edgeColumns := cols |}) in
                         (edge :: fst r, snd r)
                     end
                 end).
    { intros fuel. cbn [drain]. unfold next, stream_next.
      cbn [s_i s_edgeCount s_bytes s_offset s_edgeColumns].
      replace (i <? ec) with true by lia.
      destruct (readSize bytes offset); cbn [bind]; [|reflexivity].
      destruct (parseEdge bytes (offset + SIZE_PREFIX_LEN) a cols); cbn [bind]; reflexivity. }
    rewrite Hstep.
    destruct (readSize bytes offset) as [edgeSize|e]; cbn [bind]; [|now eexists].
    destruct (parseEdge bytes (offset + SIZE_PREFIX_LEN) edgeSize cols) as [edge|e];
      cbn [bind]; [|now eexists].
    specialize (IH bytes (offset + (SIZE_PREFIX_LEN + edgeSize)) (i + 1) ec cols).
    cbv zeta in IH.
    destruct (parseEdges n bytes (offset + (SIZE_PREFIX_LEN + edgeSize)) cols) as [es|e];
      cbn [bind].
    + rewrite IH by lia. reflexivity.
    + destruct IH as [yielded Hy]; [lia|]. rewrite Hy. now eexists.
Qed.

Lemma collect_parseGraphSection bytes offset :
  match parseGraphSection bytes offset with
  | Ok es =>
      exists st, deserializeGraphStream bytes offset = Ok st
                 /\ drain (remaining (Delegating st)) (Delegating st) = (es, None)
  | Throw e =>
      deserializeGraphStream bytes offset = Throw e
      \/ exists st yielded,
          deserializeGraphStream bytes offset = Ok st
          /\ drain (remaining (Delegating st)) (Delegating st) = (yielded, Some e)
  end.
Proof.
  unfold parseGraphSection, deserializeGraphStream.
  destruct (readSize bytes offset) as [hs|e]; cbn [bind]; [|now left].
  destruct (parseGraphHeader bytes (offset + SIZE_PREFIX_LEN) hs) as [h|e];
    cbn [bind]; [|now left].
  pose proof (drain_parseEdges (Z.to_nat (edgeCount h)) bytes
                (offset + SIZE_PREFIX_LEN + hs) 0 (edgeCount h) (edgeColumns h)) as H.
  cbv zeta in H. rewrite Z.sub_0_r in H. specialize (H eq_refl).
  destruct (parseEdges (Z.to_nat (edgeCount h)) bytes (offset + SIZE_PREFIX_LEN + hs)
                       (edgeColumns h)) as [es|e].
  - eexists; split; [reflexivity|].
    cbn [remaining s_edgeCount s_i]. rewrite Z.sub_0_r. exact H.
  - right. destruct H as [yielded Hy]. do 2 eexists; split; [reflexivity|].
    cbn [remaining s_edgeCount s_i]. rewrite Z.sub_0_r. exact Hy.
Qed.

(** C5.  The edges the streaming reader yields are, one by one and in
    order, the edges of the batch reader: whenever [deserialize] returns,
    the stream yields exactly its [adjacencyList] and ends normally; and
    whenever the stream ends normally, [deserialize] returns the edges
    yielded, provided the observer and the feature decoder do not raise.
    Without a graph section both are empty. *)
Theorem streaming_equals_batch
        {S : Type} bytes (metaFn : option (FlatGeoGraphBufMetaFn S)) (s : S) :
  (forall r, snd (deserialize bytes metaFn s) = Ok r ->
             collectEdges bytes = (adjacencyList r, None))
  /\
  (forall es fs,
      collectEdges bytes = (es, None) ->
      genericDeserialize bytes = Ok fs ->
      (forall f meta, metaFn = Some f -> snd (f meta s) = Ok tt) ->
      snd (deserialize bytes metaFn s)
      = Ok {| result_features := fs; adjacencyList := es |})
  /\
  (forall headerMeta,
      fromByteBuffer bytes (len magicbytes) = Ok headerMeta ->
      Uint8Array.length bytes <= calculateFeaturesEndOffset bytes headerMeta ->
      collectEdges bytes = ([], None)
      /\ forall r, snd (deserialize bytes metaFn s) = Ok r -> adjacencyList r = []).
Proof.
  unfold collectEdges, deserializeGraphEdges, deserialize.
  destruct (fromByteBuffer bytes (len magicbytes)) as [hm|e]; cbn [bind fst snd].
  2:{ split; [|split]; intros; discriminate. }
  set (off := calculateFeaturesEndOffset bytes hm).
  assert (Hcall : forall g,
             (forall f meta, metaFn = Some f -> snd (f meta s) = Ok tt) ->
             snd match metaFn with
                 | Some f => f {| features := hm; graph := g |} s
                 | None => (s, Ok tt)
                 end = Ok tt).
  { intros g Hobs. destruct metaFn as [f|]; [now apply Hobs|reflexivity]. }
  destruct (Z.ltb_spec off (Uint8Array.length bytes)) as [Hlt|Hge].
  - replace (Uint8Array.length bytes <=? off) with false by lia.
    pose proof (collect_parseGraphSection bytes off) as Hc.
    split; [|split].
    + intros r Hr.
      destruct (parseGraphSectionHeader bytes off) as [h|e]; cbn [bind fst snd] in Hr;
        [|discriminate].
      bind_ok Hr. inversion Hr; subst. cbn [adjacencyList].
      destruct Hc as [st [-> Hd]]. cbn [bind]. exact Hd.
    + intros es fs Hcol Hfs Hobs.
      destruct (parseGraphSectionHeader bytes off) as [h|e] eqn:Eh; cbn [bind fst snd].
      * rewrite Hfs, Hcall by assumption. cbn [bind].
        destruct (parseGraphSection bytes off) as [es'|e].
        -- destruct Hc as [st [Hst Hd]]. rewrite Hst in Hcol. cbn [bind] in Hcol.
           rewrite Hd in Hcol. inversion Hcol; subst. reflexivity.
        -- destruct Hc as [Hst | [st [yielded [Hst Hd]]]]; rewrite Hst in Hcol;
             cbn [bind] in Hcol; [discriminate|].
           rewrite Hd in Hcol. discriminate.
      * exfalso.
        unfold parseGraphSectionHeader in Eh. unfold deserializeGraphStream in Hcol.
        destruct (readSize bytes off) as [hs|e']; cbn [bind] in *; [|discriminate].
        rewrite Eh in Hcol. discriminate.
    + intros headerMeta Hh Hno. inversion Hh; subst. fold off in Hno. lia.
  - replace (Uint8Array.length bytes <=? off) with true by lia.
    cbn [remaining drain next]. split; [|split].
    + intros r Hr. cbn [fst snd] in Hr. bind_ok Hr. cbn [bind] in Hr.
      inversion Hr; subst. reflexivity.
    + intros es fs Hcol Hfs Hobs. inversion Hcol; subst.
      rewrite Hfs, Hcall by assumption. reflexivity.
    + intros headerMeta Hh Hno. split; [reflexivity|].
      intros r Hr. cbn [fst snd] in Hr. bind_ok Hr. cbn [bind] in Hr.
      inversion Hr; subst. reflexivity.
Qed.

End LocatorFacts.

Section DecoderFacts.

Context {RT : JsRuntime}.

Lemma getUint_nonneg n v pos x : DataView.getUint n v pos = Ok x -> 0 <= x.
Proof.
  intros H. apply getUint_inv in H as [-> _]. apply le_combine_bound.
Qed.

Lemma readValue_advances bytes view t offset v offset' :
  readValue bytes view t offset = Ok (v, offset') -> offset < offset'.
Proof.
  unfold readValue, DataView.getUint8, DataView.getInt8, DataView.getUint16,
    DataView.getInt16, DataView.getUint32, DataView.getInt32, DataView.getBigInt64,
    DataView.getBigUint64, DataView.getFloat32, DataView.getFloat64, DataView.getInt.
  intros H.
  destruct (ColumnType.of_tag t) as [[]|]; try discriminate;
    bind_ok H; cbn [bind] in *;
    repeat match goal with
           | E : bind ?r _ = Ok _ |- _ => bind_ok E; cbn [bind] in E
           | E : DataView.getUint _ _ _ = Ok _ |- _ => apply getUint_nonneg in E
           end;
    inversion H; subst; lia.
Qed.

Lemma parseStep_advances bytes view cols o p o' p' :
  parseStep bytes view cols o p = Ok (Some (o', p')) ->
  o < Uint8Array.length bytes /\ o + 2 < o'.
Proof.
  unfold parseStep. intros H.
  destruct (o <? Uint8Array.length bytes) eqn:E0; [|discriminate].
  bind_ok H.
  destruct (len cols <=? a); [discriminate|].
  destruct (nth_error cols (Z.to_nat a)) as [column|]; [|discriminate].
  bind_ok H. inversion H; subst. destruct a0 as [v o'].
  apply readValue_advances in E1. cbn [snd]. lia.
Qed.

Lemma parseStep_exit bytes view cols o p :
  Uint8Array.length bytes <= o ->
  parseStep bytes view cols o p = Ok None.
Proof.
  intros H. unfold parseStep. replace (o <? Uint8Array.length bytes) with false by lia.
  reflexivity.
Qed.

(** The loop does not depend on its fuel once the fuel covers the bytes
    left in the region. *)
Lemma parseProperties_fuel bytes view cols f1 : forall f2 o p,
  Uint8Array.length bytes - o <= Z.of_nat f1 ->
  Uint8Array.length bytes - o <= Z.of_nat f2 ->
  parseProperties f1 bytes view cols o p = parseProperties f2 bytes view cols o p.
Proof.
  induction f1 as [|f1 IH]; intros f2 o p H1 H2.
  - destruct f2 as [|f2]; [reflexivity|]. cbn [parseProperties].
    rewrite parseStep_exit by lia. reflexivity.
  - destruct f2 as [|f2]; cbn [parseProperties].
    + rewrite parseStep_exit by lia. reflexivity.
    + destruct (parseStep bytes view cols o p) as [[[o' p']|]|e] eqn:E; cbn [bind];
        try reflexivity.
      apply parseStep_advances in E. apply IH; lia.
Qed.

Lemma parseProperties_decodes bytes view cols st st' :
  decodes bytes view cols st st' ->
  forall fuel,
    Uint8Array.length bytes - fst st <= Z.of_nat fuel ->
    fst st' < Uint8Array.length bytes ->
    parseStep bytes view cols (fst st') (snd st') = Ok None ->
    parseProperties fuel bytes view cols (fst st) (snd st) = Ok (snd st').
Proof.
  induction 1 as [st|o p o' p' st Hstep Hrest IH]; intros fuel Hfuel Hlt Hstop.
  - destruct fuel as [|fuel]; [lia|]. cbn [parseProperties]. rewrite Hstop. reflexivity.
  - cbn [fst snd] in *. pose proof (parseStep_advances _ _ _ _ _ _ _ Hstep) as [Ho Ho'].
    destruct fuel as [|fuel]; [lia|]. cbn [parseProperties]. rewrite Hstep. cbn [bind].
    apply IH; [lia|assumption|assumption].
Qed.

Lemma prop_set_keys key value props k :
  In k (map fst (prop_set key value props)) -> k = key \/ In k (map fst props).
Proof.
  induction props as [|[k' v'] props IH]; cbn [prop_set map fst In].
  - intros [H|[]]; auto.
  - destruct (String.eqb k' key); cbn [map fst In]; intros [H|H]; auto.
    destruct (IH H); auto.
Qed.

Lemma parseStep_keys bytes view cols o p o' p' k :
  parseStep bytes view cols o p = Ok (Some (o', p')) ->
  In k (map fst p') -> In k (map fst p) \/ In k (map name cols).
Proof.
  unfold parseStep. intros H Hin.
  destruct (o <? Uint8Array.length bytes); [|discriminate].
  bind_ok H.
  destruct (len cols <=? a); [discriminate|].
  destruct (nth_error cols (Z.to_nat a)) as [column|] eqn:En; [|discriminate].
  bind_ok H. inversion H; subst.
  apply prop_set_keys in Hin as [-> | Hin]; [right|now left].
  apply in_map. eapply nth_error_In; eassumption.
Qed.

Lemma decodes_keys bytes view cols st st' :
  decodes bytes view cols st st' ->
  forall k, In k (map fst (snd st')) ->
            In k (map fst (snd st)) \/ In k (map name cols).
Proof.
  induction 1 as [st|o p o' p' st Hstep Hrest IH]; intros k Hin; [now left|].
  destruct (IH k Hin) as [H|H]; [|now right].
  cbn [snd] in *. eapply parseStep_keys; eassumption.
Qed.

(** C3.  Whatever the schema and the bytes of the property region: when
    the decoder, having decoded [properties] so far, reads at [offset] a
    column ordinal that is not below the number of columns, it returns
    [properties] and raises nothing.  The keys returned are names of
    declared columns. *)
Theorem decoder_stops_at_unknown_ordinal bytes c cs view offset properties colIndex :
  DataView.new (Uint8Array.buffer bytes) (Uint8Array.byteOffset bytes) = Ok view ->
  decodes bytes view (c :: cs) (0, []) (offset, properties) ->
  offset < Uint8Array.length bytes ->
  DataView.getUint16 view offset = Ok colIndex ->
  len (c :: cs) <= colIndex ->
  parseEdgeProperties bytes (Some (c :: cs)) = Ok properties
  /\ forall key, In key (map fst properties) -> In key (map name (c :: cs)).
Proof.
  intros Hview Hrun Hlt Hord Hbig. split.
  - unfold parseEdgeProperties.
    assert (0 <= offset) by (apply getUint_inv in Hord; lia).
    replace (Uint8Array.length bytes =? 0) with false by lia.
    rewrite Hview. cbn [bind].
    apply (parseProperties_decodes _ _ _ _ _ Hrun); cbn [fst snd]; [lia|assumption|].
    unfold parseStep. replace (offset <? Uint8Array.length bytes) with true by lia.
    rewrite Hord. cbn [bind]. replace (len (c :: cs) <=? colIndex) with true by lia.
    reflexivity.
  - intros key Hin.
    destruct (decodes_keys _ _ _ _ _ Hrun key Hin) as [[]|H]; assumption.
Qed.

End DecoderFacts.

(** ** Reading back what was written *)

Section Layout.

Lemma len_le_split n z : len (le_split n z) = Z.of_nat n.
Proof. unfold len. now rewrite length_le_split. Qed.

Lemma len_cons {A} (a : A) l : len (a :: l) = 1 + len l.
Proof. unfold len. cbn [List.length]. lia. Qed.

Lemma sub_app_mid {A} (pre x post : list A) :
  sub (pre ++ x ++ post) (len pre) (len x) = x.
Proof.
  unfold sub, len. rewrite !Nat2Z.id.
  rewrite skipn_app, skipn_all, Nat.sub_diag. cbn [skipn app].
  rewrite firstn_app, firstn_all, Nat.sub_diag. cbn [firstn]. apply app_nil_r.
Qed.

(** The piece [x] of a buffer laid out as [pre ++ x ++ post]. *)
Lemma sub_at {A} (B pre x post : list A) p n :
  B = pre ++ x ++ post -> p = len pre -> n = len x -> sub B p n = x.
Proof. intros -> -> ->. apply sub_app_mid. Qed.

Lemma le_combine_le_split_small n z :
  0 <= z < 2 ^ (Z.of_nat n * 8) -> le_combine (le_split n z) = z.
Proof. intros H. rewrite le_combine_split. apply Z.mod_small. exact H. Qed.

Lemma getUint_at n z B pre post base pos :
  B = pre ++ le_split n z ++ post ->
  0 <= pos -> base + pos = len pre ->
  0 <= z < 2 ^ (Z.of_nat n * 8) ->
  DataView.getUint (Z.of_nat n) (DataView.make B base) pos = Ok z.
Proof.
  intros HB Hpos Hp Hz.
  rewrite getUint_ok; cbn [DataView.buffer DataView.byteOffset].
  - rewrite (sub_at B pre (le_split n z) post) by (rewrite ?len_le_split; auto).
    now rewrite le_combine_le_split_small.
  - assumption.
  - rewrite HB, !len_app, len_le_split. pose proof (len_nonneg post). lia.
Qed.

Lemma nth_error_at {A} (B pre post : list A) x p :
  B = pre ++ x :: post -> p = len pre -> nth_error B (Z.to_nat p) = Some x.
Proof.
  intros -> ->. unfold len. rewrite Nat2Z.id.
  rewrite nth_error_app2 by lia. now rewrite Nat.sub_diag.
Qed.

(** A window that lies inside the array shows the bytes of the buffer. *)
Lemma window_inside bytes a l :
  0 <= a -> 0 <= l -> a + l <= Uint8Array.length bytes ->
  window bytes a l
  = sub (Uint8Array.buffer bytes) (Uint8Array.byteOffset bytes + a) l.
Proof.
  intros Ha Hl Hfit.
  unfold window, Uint8Array.to_list, Uint8Array.subarray, Uint8Array.rel.
  cbn [Uint8Array.buffer Uint8Array.byteOffset Uint8Array.length].
  replace (a <? 0) with false by lia. replace (a + l <? 0) with false by lia.
  f_equal; [f_equal|]; lia.
Qed.

Lemma slice_inside bytes a l :
  0 <= a -> 0 <= l -> a + l <= Uint8Array.length bytes ->
  Uint8Array.slice bytes a (a + l)
  = sub (Uint8Array.buffer bytes) (Uint8Array.byteOffset bytes + a) l.
Proof. apply window_inside. Qed.



End Layout.

(** ** 64-bit integers and numbers *)

Section FloatFacts.










End FloatFacts.

(** ** Schema inference and edge validation in [serialize] *)

Section SerializeFacts.

Context {RT : JsRuntime} {FC : FeatureCodec}.







Lemma serialize_graph_header features a crsCode cols bytes :
  introspectEdgeColumns (edges a) = Ok cols ->
  serialize features (Some a) crsCode = Ok bytes ->
  fileWithGraphHeader features crsCode (List.length (edges a))
                      (buildGraphHeader (len (edges a)) cols) bytes.
Proof.
  intros Hcols H. unfold serialize in H.
  destruct (mapM (fun f => buildFeature f (introspectHeaderMeta features)) features)
    as [encoded|] eqn:Em; cbn [bind] in H; [|discriminate].
  unfold buildGraphSection in H. rewrite Hcols in H. cbn [bind] in H.
  destruct (mapM (fun e => buildEdgeRecord e cols (len features)) (edges a))
    as [records|] eqn:Er; cbn [bind] in H; [|discriminate].
  inversion H; subst. exists encoded, records.
  split; [reflexivity|]. split; eapply mapM_length; eassumption.
Qed.

Lemma specHeader_written n props :
  buildGraphHeader n (Some (map specColumn props)) = specHeader n props.
Proof.
  unfold buildGraphHeader, specHeader. f_equal. f_equal.
  - unfold len. now rewrite length_map.
  - f_equal. rewrite map_map. apply map_ext. intros kv. reflexivity.
Qed.

(** C2.  Schema inference and what is written of it.  When no edge
    carries a property the schema is absent and the graph header that
    [serialize] writes holds the edge count and a column count of zero,
    and nothing else.  Otherwise the columns are the keys, in iteration
    order, of the first edge whose property map is not empty, typed Bool
    for a boolean, Double for a number, String for a string and for null,
    Binary for a byte array and Json for any other object, and the graph
    header written holds, after the edge count, the number of these keys
    and, for each key in order, the length of its encoded name, the
    encoded name and the number of its type. *)
Theorem schema_from_first_propertied_edge features (a : AdjacencyListInput) crsCode :
  ((forall e, In e (edges a) -> noProperties e) ->
   introspectEdgeColumns (edges a) = Ok None
   /\ (forall n, buildGraphHeader n None = setUint 4 n ++ setUint 2 0)
   /\ forall bytes,
        serialize features (Some a) crsCode = Ok bytes ->
        fileWithGraphHeader features crsCode (List.length (edges a))
                            (setUint 4 (len (edges a)) ++ setUint 2 0) bytes)
  /\
  (forall pre e post props,
      edges a = pre ++ e :: post ->
      (forall e', In e' pre -> noProperties e') ->
      EdgeInput.properties e = Some props ->
      props <> [] ->
      NoDup (map fst props) ->
      (forall k v, In (k, v) props -> inferable v = true) ->
      introspectEdgeColumns (edges a) = Ok (Some (map specColumn props))
      /\ (forall n, buildGraphHeader n (Some (map specColumn props)) = specHeader n props)
      /\ forall bytes,
           serialize features (Some a) crsCode = Ok bytes ->
           fileWithGraphHeader features crsCode (List.length (edges a))
                               (specHeader (len (edges a)) props) bytes).
Proof.
  split.
  - intros Hnone.
    assert (Hi : introspectEdgeColumns (edges a) = Ok None).
    { unfold introspectEdgeColumns.
      rewrite find_none; [reflexivity|].
      intros y Hy. apply hasProperties_false; auto. }
    assert (Hh : forall n, buildGraphHeader n None = setUint 4 n ++ setUint 2 0).
    { intros n. unfold buildGraphHeader. cbn [map List.concat]. now rewrite app_nil_r. }
    split; [exact Hi|]. split; [exact Hh|].
    intros bytes Hser. rewrite <- Hh. now apply serialize_graph_header.
  - intros pre e post props Hsplit Hpre Hprops Hne Hnd Hdef.
    assert (Hi : introspectEdgeColumns (edges a) = Ok (Some (map specColumn props))).
    { unfold introspectEdgeColumns. rewrite Hsplit.
      rewrite find_first.
      + rewrite Hprops.
        rewrite (mapM_ok_map _ specColumn); [reflexivity|].
        intros [k v] Hin. simpl.
        rewrite (prop_get_In k v) by assumption.
        rewrite valueToColumnType_spec by (eapply Hdef; eauto).
        reflexivity.
      + intros y Hy. apply hasProperties_false; auto.
      + unfold hasProperties. rewrite Hprops. destruct props; congruence. }
    split; [exact Hi|]. split; [intros n; apply specHeader_written|].
    intros bytes Hser. rewrite <- specHeader_written.
    now apply serialize_graph_header.
Qed.


End SerializeFacts.

Section LongColumns.

Context {RT : JsRuntime}.



End LongColumns.

(** ** The round trip of the graph section *)

Section ValueRoundtrip.

Context {RT : JsRuntime}.







End ValueRoundtrip.

Section PropertyRoundtrip.

Context {RT : JsRuntime}.

Lemma encodeColumns_cons props c rest i :
  encodeColumns props (c :: rest) i =
    if isNullish (prop_get (name c) props)
    then encodeColumns props rest (i + 1)
    else (payload <- encodeValue (type c) (prop_get (name c) props) ;;
          tail <- encodeColumns props rest (i + 1) ;;
          Ok (setUint 2 i ++ payload ++ tail)).
Proof. cbn [encodeColumns]. destruct (prop_get (name c) props); reflexivity. Qed.





End PropertyRoundtrip.

Section EdgeRoundtrip.

Context {RT : JsRuntime}.







End EdgeRoundtrip.

Section HeaderRoundtrip.

Context {RT : JsRuntime}.

Lemma get_at B pre post x p :
  B = pre ++ x :: post -> p = len pre ->
  Uint8Array.get (Uint8Array.of_list B) p = Some x.
Proof.
  intros HB Hp. rewrite get_of_list.
  pose proof (len_nonneg pre). pose proof (len_nonneg post).
  assert (len B = len pre + 1 + len post) by (rewrite HB, len_app, len_cons; lia).
  replace (0 <=? p) with true by lia. replace (p <? len B) with true by lia.
  cbn [andb]. now apply (nth_error_at B pre post).
Qed.

Lemma len_encodeColumn c :
  len (encodeColumn c) = 2 + len (textEncoder_encode (name c)) + 1.
Proof.
  unfold encodeColumn, setUint. rewrite !len_app, len_le_split, len_cons.
  change (len (@nil byte)) with 0. lia.
Qed.



End HeaderRoundtrip.

Section FileRoundtrip.

Context {RT : JsRuntime} {FC : FeatureCodec}.




Lemma bb_readUint32_at z B pre post p :
  B = pre ++ le_split 4 z ++ post -> p = len pre -> 0 <= z < 2 ^ 32 ->
  bb_readUint32 (Uint8Array.of_list B) p = z.
Proof.
  intros HB -> Hz. unfold bb_readUint32.
  pose proof (le_combine_le_split_small 4 z) as Hc.
  change (2 ^ (Z.of_nat 4 * 8)) with (2 ^ 32) in Hc. specialize (Hc Hz).
  cbn [le_split] in HB, Hc.
  set (b0 := byte.of_Z z) in *.
  set (b1 := byte.of_Z (Z.shiftr z 8)) in *.
  set (b2 := byte.of_Z (Z.shiftr (Z.shiftr z 8) 8)) in *.
  set (b3 := byte.of_Z (Z.shiftr (Z.shiftr (Z.shiftr z 8) 8) 8)) in *.
  cbn [app] in HB.
  rewrite (get_at B pre (b1 :: b2 :: b3 :: post) b0) by (auto; lia).
  rewrite (get_at B (pre ++ [b0]) (b2 :: b3 :: post) b1)
    by (rewrite ?HB, <- ?app_assoc, ?len_app; reflexivity).
  rewrite (get_at B (pre ++ [b0; b1]) (b3 :: post) b2)
    by (rewrite ?HB, <- ?app_assoc, ?len_app; reflexivity).
  rewrite (get_at B (pre ++ [b0; b1; b2]) post b3)
    by (rewrite ?HB, <- ?app_assoc, ?len_app; reflexivity).
  rewrite <- Hc. change (le_split 4 z) with [b0; b1; b2; b3]. cbv [le_combine].
  rewrite Z.shiftl_0_l, Z.lor_0_r.
  rewrite !Z.shiftl_lor, !Z.shiftl_shiftl by lia.
  rewrite !Z.lor_assoc. reflexivity.
Qed.






End FileRoundtrip.

(** ** The staging buffer grows in time *)

Section StagingFacts.

Lemma len_firstn {A} (l : list A) n :
  0 <= n <= len l -> len (firstn (Z.to_nat n) l) = n.
Proof. unfold len. intros H. rewrite length_firstn. lia. Qed.

Lemma len_skipn {A} (l : list A) n :
  0 <= n <= len l -> len (skipn (Z.to_nat n) l) = len l - n.
Proof. unfold len. intros H. rewrite length_skipn. lia. Qed.

Lemma len_repeat {A} (x : A) n : len (repeat x n) = Z.of_nat n.
Proof. unfold len. now rewrite repeat_length. Qed.

Lemma initial_wf : Staging.wf Staging.initial.
Proof. split; [reflexivity|]. cbn. lia. Qed.

(** After [prep(size)] the next [size] bytes fit, and what was written
    is still there. *)
Lemma prep_spec size st :
  Staging.wf st -> 0 <= size ->
  Staging.wf (Staging.prep size st)
  /\ Staging.slice (Staging.prep size st) = Staging.slice st
  /\ Staging.offset (Staging.prep size st) = Staging.offset st
  /\ Staging.offset st + size <= Staging.capacity (Staging.prep size st).
Proof.
  intros [Hlen Hoff] Hsize. unfold Staging.prep.
  destruct (Z.ltb_spec (Staging.offset st + size) (Staging.capacity st)).
  - repeat split; try assumption; lia.
  - cbn [Staging.capacity Staging.bytes Staging.offset]. unfold Staging.wf, Staging.slice.
    cbn [Staging.capacity Staging.bytes Staging.offset].
    repeat split; try lia.
    + rewrite len_app, len_repeat, Hlen. lia.
    + rewrite firstn_app.
      replace (Z.to_nat (Staging.offset st) - List.length (Staging.bytes st))%nat
        with 0%nat by (unfold len in Hlen; lia).
      cbn [firstn]. apply app_nil_r.
Qed.

(** A write that fits appends its chunk to what was written. *)
Lemma write_spec chunk st :
  Staging.wf st ->
  Staging.offset st + len chunk <= Staging.capacity st ->
  exists st',
    Staging.write chunk st = Ok st'
    /\ Staging.wf st'
    /\ Staging.slice st' = Staging.slice st ++ chunk
    /\ Staging.capacity st' = Staging.capacity st
    /\ Staging.offset st' = Staging.offset st + len chunk.
Proof.
  intros [Hlen Hoff] Hfit. pose proof (len_nonneg chunk) as Hc.
  unfold Staging.write.
  replace (Staging.offset st + len chunk <=? Staging.capacity st) with true by lia.
  eexists. split; [reflexivity|].
  unfold Staging.wf, Staging.slice. cbn [Staging.capacity Staging.bytes Staging.offset].
  assert (H1 : len (firstn (Z.to_nat (Staging.offset st)) (Staging.bytes st))
               = Staging.offset st) by (apply len_firstn; lia).
  repeat split; try lia.
  - rewrite !len_app, H1, len_skipn by lia. lia.
  - rewrite app_assoc. rewrite firstn_app.
    replace (Z.to_nat (Staging.offset st + len chunk)
             - List.length (firstn (Z.to_nat (Staging.offset st)) (Staging.bytes st) ++ chunk))%nat
      with 0%nat by (unfold len in *; rewrite List.length_app in *; lia).
    cbn [firstn]. rewrite app_nil_r.
    apply firstn_all2. unfold len in *. rewrite List.length_app in *. lia.
Qed.

(** [prep] for a length prefix and its payload, then the two writes:
    nothing is raised and the buffer holds what it held, followed by the
    two chunks.  With an empty second chunk this is the fixed-width case
    and the write of the column ordinal. *)
Lemma prep_then_write a b st :
  Staging.wf st ->
  exists st1 st2,
    Staging.write a (Staging.prep (len a + len b) st) = Ok st1
    /\ Staging.write b st1 = Ok st2
    /\ Staging.wf st2
    /\ Staging.slice st2 = Staging.slice st ++ a ++ b.
Proof.
  intros Hwf. pose proof (len_nonneg a) as Ha. pose proof (len_nonneg b) as Hb.
  destruct (prep_spec (len a + len b) st Hwf ltac:(lia)) as [Hwf0 [Hs0 [Ho0 Hc0]]].
  destruct (write_spec a _ Hwf0 ltac:(lia)) as [st1 [Hw1 [Hwf1 [Hs1 [Hc1 Ho1]]]]].
  destruct (write_spec b st1 Hwf1 ltac:(lia)) as [st2 [Hw2 [Hwf2 [Hs2 _]]]].
  exists st1, st2. do 3 (split; [assumption|]).
  rewrite Hs2, Hs1, Hs0, <- app_assoc. reflexivity.
Qed.

End StagingFacts.

(** ** Further properties of the property codec *)

Section CodecFacts.

Context {RT : JsRuntime}.

(** X1.  Every column that schema inference produces has one of the
    types Bool, Double, String, Json and Binary, each of which
    [encodeEdgeProperties] has a case for, and is named after a key of the
    property map of an edge of the list. *)
Theorem inferred_columns_are_encodable es cols c :
  introspectEdgeColumns es = Ok cols -> In c (columnsOf cols) ->
  (exists t, In t inferredTypes /\ type c = Some (ColumnType.tag t))
  /\ exists e p, In e es /\ EdgeInput.properties e = Some p /\ In (name c) (map fst p).
Proof.
  unfold introspectEdgeColumns. intros H Hin.
  destruct (find hasProperties es) as [e|] eqn:Ef.
  2:{ inversion H; subst. destruct Hin. }
  apply find_some in Ef as [He Hhas]. unfold hasProperties in Hhas.
  destruct (EdgeInput.properties e) as [[|kv props]|] eqn:Ep; try discriminate.
  bind_ok H. inversion H; subst. cbn [columnsOf] in Hin.
  destruct (mapM_In _ _ _ _ E Hin) as [kv' [Hkv Hc]].
  bind_ok Hc. inversion Hc; subst. cbn [type name]. split.
  - exists a0. split; [|reflexivity].
    unfold valueToColumnType in E0.
    destruct (prop_get (fst kv') (kv :: props)); inversion E0; subst; cbn; tauto.
  - exists e, (kv :: props). split; [assumption|]. split; [exact Ep|].
    now apply in_map.
Qed.

Lemma encodeColumns_sameStored p p' cols : forall i,
  sameStored cols p p' -> encodeColumns p cols i = encodeColumns p' cols i.
Proof.
  induction cols as [|c cs IH]; intros i H; [reflexivity|].
  rewrite !encodeColumns_cons.
  assert (Hcs : sameStored cs p p') by (intros c' Hin; apply H; now right).
  destruct (H c (or_introl eq_refl)) as [Heq|[Hn Hn']].
  - rewrite Heq, (IH _ Hcs). reflexivity.
  - rewrite Hn, Hn'. now apply IH.
Qed.

Lemma encodeColumns_all_nullish p cols : forall i,
  (forall c, In c cols -> isNullish (prop_get (name c) p) = true) ->
  encodeColumns p cols i = Ok [].
Proof.
  induction cols as [|c cs IH]; intros i H; [reflexivity|].
  rewrite encodeColumns_cons, (H c (or_introl eq_refl)).
  apply IH. intros c' Hin. apply H. now right.
Qed.

Lemma prop_get_missing key p :
  ~ In key (map fst p) -> prop_get key p = inherited key.
Proof.
  induction p as [|[k v] p IH]; intros Hin; [reflexivity|].
  cbn [prop_get]. destruct (String.eqb_spec k key) as [->|Hne].
  - exfalso. apply Hin. now left.
  - apply IH. intros H. apply Hin. now right.
Qed.

(** X2.  The bytes written for an edge's properties depend only on what
    the lookup [properties[name]] gives for the schema's column names, a
    null value counting as an undefined one: own keys outside the schema
    and the order of the keys have no effect, and a map for which every
    lookup gives null or undefined is written like no map at all, as no
    bytes.  The lookup makes no own-property test: under a column named
    after a method every object inherits ([constructor], [toString], ...)
    a map without that key is written with the method, which a Bool
    column stores as [true]. *)
Theorem encoding_depends_on_stored_values p p' cols :
  (sameStored (columnsOf cols) p p' ->
   encodeEdgeProperties (Some p) cols = encodeEdgeProperties (Some p') cols)
  /\
  ((forall c, In c (columnsOf cols) -> isNullish (prop_get (name c) p) = true) ->
   encodeEdgeProperties (Some p) cols = Ok []
   /\ encodeEdgeProperties None cols = Ok [])
  /\
  (forall key,
      In key objectPrototypeMethods -> ~ In key (map fst p) ->
      encodeEdgeProperties
        (Some p) (Some [ {| name := key; type := Some (ColumnType.tag ColumnType.Bool) |} ])
      = Ok (setUint 2 0 ++ [byte.of_Z 1])).
Proof.
  split; [|split].
  - intros H. destruct cols as [[|c cs]|]; try reflexivity.
    cbn [encodeEdgeProperties]. now apply encodeColumns_sameStored.
  - intros H. split; [|destruct cols as [[|c cs]|]; reflexivity].
    destruct cols as [[|c cs]|]; try reflexivity.
    cbn [encodeEdgeProperties]. now apply encodeColumns_all_nullish.
  - intros key Hkey Hmiss. unfold encodeEdgeProperties. rewrite encodeColumns_cons.
    cbn [name]. rewrite (prop_get_missing _ _ Hmiss).
    assert (Hi : inherited key = VFunction key).
    { unfold objectPrototypeMethods in Hkey. cbn [In] in Hkey.
      repeat (destruct Hkey as [<-|Hkey]; [reflexivity|]). destruct Hkey. }
    rewrite Hi. reflexivity.
Qed.

Lemma prop_set_NoDup key value props :
  NoDup (map fst props) -> NoDup (map fst (prop_set key value props)).
Proof.
  induction props as [|[k v] rest IH]; intros Hnd; cbn [prop_set map fst].
  - constructor; [intros []|constructor].
  - destruct (String.eqb_spec k key) as [->|Hne]; cbn [map fst]; [exact Hnd|].
    inversion Hnd as [|? ? Hnotin Hrest]; subst. constructor; [|now apply IH].
    intros Hin. apply prop_set_keys in Hin as [->|Hin]; [now apply Hne|contradiction].
Qed.

Lemma parseProperties_invariant (P : EdgeProperties -> Prop) bytes view cols :
  (forall o p o' p', parseStep bytes view cols o p = Ok (Some (o', p')) -> P p -> P p') ->
  forall fuel o p r,
    P p -> parseProperties fuel bytes view cols o p = Ok r -> P r.
Proof.
  intros Hstep. induction fuel as [|fuel IH]; intros o p r Hp H; cbn [parseProperties] in H.
  - now inversion H; subst.
  - bind_ok H. destruct a as [[o' p']|].
    + eapply IH; [|exact H]. eapply Hstep; eassumption.
    + now inversion H; subst.
Qed.

Lemma parseEdgeProperties_keys bytes cols props :
  parseEdgeProperties bytes cols = Ok props ->
  NoDup (map fst props)
  /\ forall k, In k (map fst props) -> In k (map name (columnsOf cols)).
Proof.
  intros H.
  assert (Hnil : NoDup (map fst (@nil (string * JsValue)))
                 /\ forall k, In k (map fst (@nil (string * JsValue))) ->
                              In k (map name (columnsOf cols))).
  { split; [constructor|intros k []]. }
  unfold parseEdgeProperties in H.
  destruct cols as [[|c cs]|]; try (inversion H; subst; exact Hnil).
  destruct (Uint8Array.length bytes =? 0); [inversion H; subst; exact Hnil|].
  bind_ok H.
  refine (parseProperties_invariant
            (fun p => NoDup (map fst p)
                      /\ forall k, In k (map fst p) -> In k (map name (c :: cs)))
            _ _ _ _ _ _ _ _ Hnil H).
  intros o p o' p' Hs [Hnd Hk]. split.
  - unfold parseStep in Hs.
    destruct (o <? Uint8Array.length bytes); [|discriminate].
    bind_ok Hs. destruct (len (c :: cs) <=? a0); [discriminate|].
    destruct (nth_error (c :: cs) (Z.to_nat a0)); [|discriminate].
    bind_ok Hs. inversion Hs; subst. now apply prop_set_NoDup.
  - intros k Hin. destruct (parseStep_keys _ _ _ _ _ _ _ k Hs Hin) as [Hp|Hc];
      [now apply Hk|exact Hc].
Qed.

(** X3.  The property map of a decoded edge never holds a key twice, and
    every key it holds is the name of a column of the schema it was
    decoded with: whatever the bytes, the reader invents no property. *)
Theorem decoded_keys_are_columns bytes offset size cols e :
  parseEdge bytes offset size cols = Ok e ->
  NoDup (map fst (Edge.properties e))
  /\ forall k, In k (map fst (Edge.properties e)) -> In k (map name (columnsOf cols)).
Proof.
  intros H. unfold parseEdge in H. bind_ok H. inversion H; subst.
  cbn [Edge.properties].
  destruct cols as [[|c cs]|]; try (inversion E2; subst; split; [constructor|intros k []]).
  destruct (8 <? size); [|inversion E2; subst; split; [constructor|intros k []]].
  now apply parseEdgeProperties_keys in E2.
Qed.

End CodecFacts.

(** ** Further properties of the readers *)

Section ReaderBounds.

Context {RT : JsRuntime}.

(** X4.  The property loop terminates on every input: an iteration that
    completes starts inside the region and consumes at least three bytes
    (the ordinal and at least one byte of value), so the number of
    iterations is bounded by the length of the region, whatever the bytes
    are. *)
Theorem property_loop_terminates bytes view cols :
  (forall o p o' p',
      parseStep bytes view cols o p = Ok (Some (o', p')) ->
      o < Uint8Array.length bytes /\ o + 3 <= o')
  /\
  (forall fuel o p,
      Uint8Array.length bytes - o <= Z.of_nat fuel ->
      parseProperties fuel bytes view cols o p
      = parseProperties (Z.to_nat (Uint8Array.length bytes - o)) bytes view cols o p).
Proof.
  split.
  - intros o p o' p' H. apply parseStep_advances in H. lia.
  - intros fuel o p H. apply parseProperties_fuel; lia.
Qed.

Lemma getUint_range n v pos x :
  0 <= n -> DataView.getUint n v pos = Ok x -> 0 <= x < 2 ^ (8 * n).
Proof.
  intros Hn H. apply getUint_inv in H as [-> _].
  set (bs := sub (DataView.buffer v) (DataView.byteOffset v + pos) n).
  pose proof (le_combine_bound bs) as Hb.
  assert (Hl : Z.of_nat (List.length bs) <= n).
  { subst bs. unfold sub. rewrite length_firstn. lia. }
  split; [lia|]. eapply Z.lt_le_trans; [apply Hb|].
  apply Z.pow_le_mono_r; lia.
Qed.

Lemma parseEdge_range bytes offset size cols e :
  parseEdge bytes offset size cols = Ok e -> indexInRange e.
Proof.
  intros H. unfold parseEdge in H. bind_ok H. inversion H; subst.
  unfold indexInRange. cbn [Edge.from Edge.to].
  apply (getUint_range 4) in E0, E1; lia.
Qed.

Lemma parseEdges_count n : forall bytes offset cols es,
  parseEdges n bytes offset cols = Ok es ->
  List.length es = n /\ Forall indexInRange es.
Proof.
  induction n as [|n IH]; intros bytes offset cols es H; cbn [parseEdges] in H.
  - inversion H; subst. split; [reflexivity|constructor].
  - bind_ok H. inversion H; subst.
    destruct (IH _ _ _ _ E1) as [Hl Hr]. split; [cbn [List.length]; now f_equal|].
    constructor; [|assumption]. eapply parseEdge_range; eassumption.
Qed.

Lemma parseGraphHeader_inv bytes offset hs h :
  parseGraphHeader bytes offset hs = Ok h ->
  0 <= edgeCount h < 2 ^ 32
  /\ 0 <= Uint8Array.byteOffset bytes + offset
  /\ Uint8Array.byteOffset bytes + offset + 6 <= len (Uint8Array.buffer bytes).
Proof.
  intros H. unfold parseGraphHeader in H.
  destruct (DataView.new (Uint8Array.buffer bytes) (Uint8Array.byteOffset bytes + offset))
    as [v|] eqn:Ev; cbn [bind] in H; [|discriminate].
  destruct (DataView.getUint32 v 0) as [n|] eqn:En; cbn [bind] in H; [|discriminate].
  destruct (DataView.getUint16 v 4) as [k|] eqn:Ek; cbn [bind] in H; [|discriminate].
  bind_ok H. inversion H; subst. cbn [edgeCount].
  apply DataView_new_inv in Ev as [-> Hv].
  apply (getUint_range 4) in En; [|lia].
  apply getUint_inv in Ek as [_ [_ H16]].
  cbn [DataView.byteOffset DataView.buffer] in H16.
  change (2 ^ (8 * 4)) with (2 ^ 32) in En. lia.
Qed.


(** X5.  When the batch reader returns, it returns exactly as many edges
    as the graph header declares, the count the header probe reports, and
    the vertex indices of every edge are unsigned 32-bit numbers. *)
Theorem section_returns_declared_edges bytes offset es :
  parseGraphSection bytes offset = Ok es ->
  exists h, parseGraphSectionHeader bytes offset = Ok h
            /\ len es = edgeCount h
            /\ 0 <= edgeCount h < 2 ^ 32
            /\ Forall indexInRange es.
Proof.
  intros H. unfold parseGraphSection in H. bind_ok H. rename a into hs, a0 into h.
  exists h. unfold parseGraphSectionHeader. rewrite E. cbn [bind].
  split; [exact E0|].
  assert (Hc : 0 <= edgeCount h < 2 ^ 32) by (now apply parseGraphHeader_inv in E0).
  destruct (parseEdges_count _ _ _ _ _ H) as [Hl Hr].
  split; [|split; assumption].
  unfold len. rewrite Hl. lia.
Qed.



End ReaderBounds.

Section RegionEnd.

Context {RT : JsRuntime}.




End RegionEnd.

(** ** Further properties of the graph header *)

Section HeaderBytes.

Context {RT : JsRuntime}.

Lemma parseColumns_roundtrip_bytes B cs : forall pre post offset pos,
  (forall c, In c cs ->
             (exists z, type c = Some z /\ 0 <= z < 256)
             /\ textRoundtrips (name c)
             /\ len (textEncoder_encode (name c)) < 2 ^ 16) ->
  B = pre ++ List.concat (map encodeColumn cs) ++ post ->
  0 <= offset -> 0 <= pos -> offset + pos = len pre ->
  parseColumns (List.length cs) (Uint8Array.of_list B) (DataView.make B offset) offset pos
  = Ok cs.
Proof.
  induction cs as [|c cs IH]; intros pre post offset pos Hfit HB Hoff Hpos Hp;
    [reflexivity|].
  destruct (Hfit c (or_introl eq_refl)) as [[z [Ht Hz]] [Hrt Hsz]].
  unfold textRoundtrips in Hrt.
  set (nb := textEncoder_encode (name c)) in *.
  pose proof (len_nonneg nb) as Hnb. pose proof (len_nonneg pre) as Hpre.
  pose proof (len_nonneg post) as Hpost.
  cbn [map List.concat] in HB. unfold encodeColumn at 1 in HB. fold nb in HB.
  rewrite Ht in HB. unfold setUint in HB.
  set (tail := List.concat (map encodeColumn cs)) in *.
  pose proof (len_nonneg tail) as Htail.
  assert (HB' : B = pre ++ le_split 2 (len nb) ++ nb ++ byte.of_Z z :: tail ++ post).
  { rewrite HB, <- !app_assoc. reflexivity. }
  assert (HlenB : len B = len pre + 2 + len nb + 1 + len tail + len post).
  { rewrite HB', !len_app, len_le_split, len_cons, len_app. lia. }
  cbn [List.length parseColumns]. unfold DataView.getUint16.
  rewrite (getUint_at 2 (len nb) B pre (nb ++ byte.of_Z z :: tail ++ post));
    [ | exact HB' | assumption | assumption
      | change (2 ^ (Z.of_nat 2 * 8)) with (2 ^ 16); lia ].
  cbn [bind].
  change (Uint8Array.to_list
            (Uint8Array.subarray (Uint8Array.of_list B) (offset + (pos + 2))
                                 (offset + (pos + 2) + len nb)))
    with (window (Uint8Array.of_list B) (offset + (pos + 2)) (len nb)).
  rewrite window_inside;
    cbn [Uint8Array.of_list Uint8Array.length Uint8Array.buffer Uint8Array.byteOffset];
    [|lia|lia|lia].
  rewrite (sub_at B (pre ++ le_split 2 (len nb)) nb (byte.of_Z z :: tail ++ post));
    [ | rewrite HB', <- !app_assoc; reflexivity
      | rewrite len_app, len_le_split; lia | reflexivity ].
  change (Uint8Array.make B 0 (len B)) with (Uint8Array.of_list B).
  rewrite (get_at B (pre ++ le_split 2 (len nb) ++ nb) (tail ++ post) (byte.of_Z z));
    [ | rewrite HB', <- !app_assoc; reflexivity
      | rewrite !len_app, len_le_split; lia ].
  cbn [option_map]. rewrite byte.unsigned_of_Z.
  rewrite (IH (pre ++ le_split 2 (len nb) ++ nb ++ [byte.of_Z z]) post
              offset (pos + 2 + len nb + 1)).
  - cbn [bind]. rewrite Hrt.
    replace (byte.wrap z) with z
      by (unfold byte.wrap; rewrite Z.mod_small; [reflexivity|lia]).
    rewrite <- Ht. destruct c; reflexivity.
  - intros c' Hin. apply Hfit. now right.
  - rewrite HB', <- !app_assoc. reflexivity.
  - assumption.
  - lia.
  - rewrite !len_app, len_le_split, len_cons. change (len (@nil byte)) with 0. lia.
Qed.

Lemma parseGraphHeader_roundtrip_bytes n cols B pre post hs :
  B = pre ++ buildGraphHeader n cols ++ post ->
  0 <= n < 2 ^ 32 ->
  len (columnsOf cols) < 2 ^ 16 ->
  (forall c, In c (columnsOf cols) ->
             (exists z, type c = Some z /\ 0 <= z < 256)
             /\ textRoundtrips (name c)
             /\ len (textEncoder_encode (name c)) < 2 ^ 16) ->
  parseGraphHeader (Uint8Array.of_list B) (len pre) hs
  = Ok {| edgeCount := n; edgeColumns := readColumns cols |}.
Proof.
  intros HB Hn Hcount Hfit.
  pose proof (len_nonneg pre) as Hpre. pose proof (len_nonneg post) as Hpost.
  pose proof (len_nonneg (columnsOf cols)) as Hcs.
  unfold buildGraphHeader, setUint in HB.
  set (tail := List.concat match cols with
                           | Some cs => map encodeColumn cs
                           | None => []
                           end) in *.
  assert (Hcc : match cols with Some cs => len cs | None => 0 end = len (columnsOf cols)).
  { destruct cols; reflexivity. }
  rewrite Hcc in HB.
  assert (HB' : B = pre ++ le_split 4 n ++ le_split 2 (len (columnsOf cols))
                      ++ tail ++ post).
  { rewrite HB, <- !app_assoc. reflexivity. }
  pose proof (len_nonneg tail) as Htail.
  assert (HlenB : len B = len pre + 4 + 2 + len tail + len post).
  { rewrite HB', !len_app, !len_le_split. lia. }
  unfold parseGraphHeader. cbn [Uint8Array.of_list Uint8Array.buffer Uint8Array.byteOffset].
  rewrite Z.add_0_l.
  rewrite DataView_new_ok by lia. cbn [bind].
  unfold DataView.getUint32, DataView.getUint16.
  rewrite (getUint_at 4 n B pre (le_split 2 (len (columnsOf cols)) ++ tail ++ post));
    [ | exact HB' | lia | lia | change (2 ^ (Z.of_nat 4 * 8)) with (2 ^ 32); lia ].
  cbn [bind].
  rewrite (getUint_at 2 (len (columnsOf cols)) B (pre ++ le_split 4 n) (tail ++ post));
    [ | rewrite HB', <- !app_assoc; reflexivity | lia
      | rewrite len_app, len_le_split; lia
      | change (2 ^ (Z.of_nat 2 * 8)) with (2 ^ 16); lia ].
  cbn [bind].
  replace (Z.to_nat (len (columnsOf cols))) with (List.length (columnsOf cols))
    by (unfold len; now rewrite Nat2Z.id).
  change (Uint8Array.make B 0 (len B)) with (Uint8Array.of_list B).
  rewrite (parseColumns_roundtrip_bytes B (columnsOf cols)
             (pre ++ le_split 4 n ++ le_split 2 (len (columnsOf cols))) post).
  - cbn [bind]. f_equal. f_equal.
    destruct cols as [[|c cs]|]; reflexivity.
  - assumption.
  - rewrite HB', <- !app_assoc. subst tail. destruct cols; reflexivity.
  - lia.
  - lia.
  - rewrite !len_app, !len_le_split. lia.
Qed.

Lemma len_columnBuffers cs :
  len (List.concat (map encodeColumn cs))
  = fold_right (fun c acc => 2 + len (textEncoder_encode (name c)) + 1 + acc) 0 cs.
Proof.
  induction cs as [|c cs IH]; [reflexivity|].
  cbn [map List.concat fold_right]. rewrite len_app, len_encodeColumn, IH. reflexivity.
Qed.

(** X7.  The graph header round-trips wherever it lies in a buffer and
    whatever follows it: decoding the bytes [buildGraphHeader] writes for an
    edge count below 2^32 and a list of fewer than 2^16 columns gives back
    the edge count and the columns, names and type bytes alike, except that
    an empty column list is read back as null.  The header size passed to
    the decoder plays no part.  The header is 6 bytes long plus, for each
    column, 3 bytes and the encoded name. *)
Theorem graph_header_roundtrip n cols pre post hs :
  0 <= n < 2 ^ 32 ->
  len (columnsOf cols) < 2 ^ 16 ->
  (forall c, In c (columnsOf cols) ->
             (exists z, type c = Some z /\ 0 <= z < 256)
             /\ textRoundtrips (name c)
             /\ len (textEncoder_encode (name c)) < 2 ^ 16) ->
  parseGraphHeader (Uint8Array.of_list (pre ++ buildGraphHeader n cols ++ post))
                   (len pre) hs
  = Ok {| edgeCount := n; edgeColumns := readColumns cols |}
  /\ len (buildGraphHeader n cols)
     = 6 + fold_right (fun c acc => 2 + len (textEncoder_encode (name c)) + 1 + acc)
                      0 (columnsOf cols).
Proof.
  intros Hn Hcount Hfit. split.
  - now apply (parseGraphHeader_roundtrip_bytes n cols _ pre post).
  - unfold buildGraphHeader, setUint. rewrite !len_app, !len_le_split.
    destruct cols as [cs|]; cbn [columnsOf List.concat fold_right];
      [rewrite len_columnBuffers|change (len (@nil byte)) with 0]; lia.
Qed.

Lemma of_tag_unknown z : 14 < z -> ColumnType.of_tag (Some z) = None.
Proof.
  intros Hz. unfold ColumnType.of_tag, ColumnType.all. cbn [find ColumnType.tag].
  repeat match goal with
         | |- context [?a =? z] => replace (a =? z) with false by lia
         end.
  reflexivity.
Qed.

(** X8.  A column type byte outside the known range 0..14 is accepted by
    the header decoder, which returns the column with that type as it is;
    the error "Unknown column type: <type>" is raised only when a property
    of that column is decoded, and on the write side when a value of that
    column is encoded.  An edge that holds no property of the column
    decodes without error. *)
Theorem unknown_column_type_raises_on_use n nm z :
  0 <= n < 2 ^ 32 -> 14 < z < 256 ->
  textRoundtrips nm -> len (textEncoder_encode nm) < 2 ^ 16 ->
  let column := {| name := nm; type := Some z |} in
  let message := ("Unknown column type: " ++ string_of_Z z)%string in
  (forall pre post hs,
      parseGraphHeader
        (Uint8Array.of_list (pre ++ buildGraphHeader n (Some [column]) ++ post))
        (len pre) hs
      = Ok {| edgeCount := n; edgeColumns := Some [column] |})
  /\ (forall rest,
        parseEdgeProperties (Uint8Array.of_list (setUint 2 0 ++ rest)) (Some [column])
        = Throw (Error message))
  /\ parseEdgeProperties (Uint8Array.of_list []) (Some [column]) = Ok []
  /\ (forall v, isNullish v = false ->
                encodeEdgeProperties (Some [(nm, v)]) (Some [column])
                = Throw (Error message)).
Proof.
  intros Hn Hz Hrt Hsz column message.
  split; [|split; [|split]].
  - intros pre post hs.
    apply (parseGraphHeader_roundtrip_bytes n (Some [column]) _ pre post);
      [reflexivity|assumption|cbn; lia|].
    intros c [<-|[]]. cbn [type name column].
    split; [exists z; split; [reflexivity|lia]|]. split; assumption.
  - intros rest. unfold parseEdgeProperties, Uint8Array.of_list, setUint.
    cbn [Uint8Array.length Uint8Array.buffer Uint8Array.byteOffset].
    pose proof (len_nonneg rest) as Hrest.
    assert (Hl : len (le_split 2 0 ++ rest) = 2 + len rest)
      by (rewrite len_app, len_le_split; lia).
    rewrite Hl. replace (2 + len rest =? 0) with false by lia. cbv beta iota.
    rewrite DataView_new_ok by lia. cbn [bind].
    destruct (Z.to_nat (2 + len rest)) as [|fuel] eqn:Ef; [lia|].
    cbn [parseProperties]. unfold parseStep. cbn [Uint8Array.length].
    replace (0 <? 2 + len rest) with true by lia. cbv beta iota.
    unfold DataView.getUint16.
    rewrite (getUint_at 2 0 _ [] rest); [ | reflexivity | lia | reflexivity | cbn; lia ].
    cbn [bind]. change (len [column] <=? 0) with false. cbv beta iota.
    change (Z.to_nat 0) with 0%nat. cbn [nth_error].
    unfold readValue. cbn [type column]. rewrite of_tag_unknown by lia.
    reflexivity.
  - reflexivity.
  - intros v Hv. unfold encodeEdgeProperties. rewrite encodeColumns_cons.
    cbn [name column prop_get]. rewrite String.eqb_refl, Hv.
    unfold encodeValue. cbn [type column]. rewrite of_tag_unknown by lia. reflexivity.
Qed.

End HeaderBytes.

(** ** Fixed-width integer columns *)

Section IntegerColumns.

Context {RT : JsRuntime}.




End IntegerColumns.

(** ** Further properties of the file functions *)

Section FileFacts.

Context {RT : JsRuntime} {FC : FeatureCodec}.

Lemma skipFeatures_sized B encoded : forall pre post,
  Forall sizePrefixed encoded ->
  B = pre ++ List.concat encoded ++ post ->
  skipFeatures (List.length encoded) (Uint8Array.of_list B) (len pre)
  = len pre + len (List.concat encoded).
Proof.
  induction encoded as [|f rest IH]; intros pre post Hfr HB.
  - cbn [List.length skipFeatures List.concat]. change (len (@nil byte)) with 0. lia.
  - apply Forall_cons_iff in Hfr as [[body [Hf Hsz]] Hrest]. subst f.
    pose proof (len_nonneg body) as Hb. pose proof (len_nonneg pre) as Hpre.
    pose proof (len_nonneg (List.concat rest)) as Hr.
    pose proof (len_nonneg post) as Hpost.
    unfold setUint in *. cbn [List.concat] in *.
    assert (HlenB : len B = len pre + 4 + len body + len (List.concat rest) + len post).
    { rewrite HB, !len_app, len_le_split. lia. }
    cbn [List.length skipFeatures Uint8Array.of_list Uint8Array.length].
    replace (len pre <? len B) with true by lia.
    change (Uint8Array.make B 0 (len B)) with (Uint8Array.of_list B).
    rewrite (bb_readUint32_at (len body) B pre (body ++ List.concat rest ++ post));
      [ | rewrite HB, <- !app_assoc; reflexivity | reflexivity | lia ].
    replace (len pre + (SIZE_PREFIX_LEN + len body))
      with (len (pre ++ le_split 4 (len body) ++ body))
      by (rewrite !len_app, len_le_split; unfold SIZE_PREFIX_LEN; lia).
    rewrite (IH (pre ++ le_split 4 (len body) ++ body) post); try assumption.
    + rewrite !len_app, len_le_split. lia.
    + rewrite HB, <- !app_assoc. reflexivity.
Qed.

Lemma locator_sized B header encoded post hm :
  sizePrefixed header ->
  Forall sizePrefixed encoded ->
  B = magicbytes ++ header ++ List.concat encoded ++ post ->
  featuresCount hm = len encoded ->
  indexNodeSize hm = 0 ->
  calculateFeaturesEndOffset (Uint8Array.of_list B) hm
  = len (magicbytes ++ header ++ List.concat encoded).
Proof.
  intros [hb [Hh Hsz]] Hfr HB Hcnt Hidx.
  pose proof (len_nonneg hb) as Hhb.
  unfold calculateFeaturesEndOffset. rewrite Hidx, Hcnt.
  change (0 <? 0) with false. cbv beta iota.
  unfold setUint in Hh.
  rewrite (bb_readUint32_at (len hb) B magicbytes (hb ++ List.concat encoded ++ post));
    [ | rewrite HB, Hh, <- !app_assoc; reflexivity | reflexivity | lia ].
  replace (Z.to_nat (len encoded)) with (List.length encoded)
    by (unfold len; now rewrite Nat2Z.id).
  replace (len magicbytes + SIZE_PREFIX_LEN + len hb) with (len (magicbytes ++ header))
    by (rewrite Hh, !len_app, len_le_split; unfold SIZE_PREFIX_LEN; lia).
  rewrite (skipFeatures_sized B encoded (magicbytes ++ header) post); try assumption.
  all: first [ rewrite !len_app; lia | rewrite HB, <- !app_assoc; reflexivity ].
Qed.

Lemma locator_indexed B header index encoded post hm :
  sizePrefixed header ->
  Forall sizePrefixed encoded ->
  B = magicbytes ++ header ++ index ++ List.concat encoded ++ post ->
  featuresCount hm = len encoded ->
  len index = (if 0 <? indexNodeSize hm
               then calcTreeSize (featuresCount hm) (indexNodeSize hm)
               else 0) ->
  calculateFeaturesEndOffset (Uint8Array.of_list B) hm
  = len (magicbytes ++ header ++ index ++ List.concat encoded).
Proof.
  intros [hb [Hh Hsz]] Hfr HB Hcnt Hidx.
  pose proof (len_nonneg hb) as Hhb.
  unfold calculateFeaturesEndOffset.
  unfold setUint in Hh.
  rewrite (bb_readUint32_at (len hb) B magicbytes
             (hb ++ index ++ List.concat encoded ++ post));
    [ | rewrite HB, Hh, <- !app_assoc; reflexivity | reflexivity | lia ].
  replace (if 0 <? indexNodeSize hm
           then len magicbytes + SIZE_PREFIX_LEN + len hb
                + calcTreeSize (featuresCount hm) (indexNodeSize hm)
           else len magicbytes + SIZE_PREFIX_LEN + len hb)
    with (len (magicbytes ++ header ++ index)).
  2:{ rewrite Hh, !len_app, len_le_split, Hidx. unfold SIZE_PREFIX_LEN.
      destruct (0 <? indexNodeSize hm); lia. }
  rewrite Hcnt.
  replace (Z.to_nat (len encoded)) with (List.length encoded)
    by (unfold len; now rewrite Nat2Z.id).
  rewrite (skipFeatures_sized B encoded (magicbytes ++ header ++ index) post);
    try assumption.
  all: first [ rewrite !len_app; lia | rewrite HB, <- !app_assoc; reflexivity ].
Qed.

(** X10.  On a file made of the magic bytes, a size-prefixed header, a
    spatial index of the size [calcTreeSize] gives when the header
    declares one (and no index otherwise), and as many size-prefixed
    features as the header declares, the offset locator returns exactly
    the offset at which the features end, whatever follows them; a graph
    section is therefore detected exactly when at least one byte follows
    the last feature. *)
Theorem locator_finds_end_of_features header index encoded post hm :
  sizePrefixed header ->
  Forall sizePrefixed encoded ->
  featuresCount hm = len encoded ->
  len index = (if 0 <? indexNodeSize hm
               then calcTreeSize (featuresCount hm) (indexNodeSize hm)
               else 0) ->
  let bytes := Uint8Array.of_list
                 (magicbytes ++ header ++ index ++ List.concat encoded ++ post) in
  calculateFeaturesEndOffset bytes hm
  = len (magicbytes ++ header ++ index ++ List.concat encoded)
  /\ (calculateFeaturesEndOffset bytes hm <? Uint8Array.length bytes)
     = match post with [] => false | _ :: _ => true end.
Proof.
  intros Hh Hfr Hcnt Hidx bytes. subst bytes.
  rewrite (locator_indexed _ header index encoded post hm) by (assumption || reflexivity).
  split; [reflexivity|].
  cbn [Uint8Array.of_list Uint8Array.length]. rewrite !len_app.
  destruct post as [|b post].
  - change (len (@nil byte)) with 0. apply Z.ltb_ge. lia.
  - rewrite len_cons. pose proof (len_nonneg post). apply Z.ltb_lt. lia.
Qed.

Lemma serialize_inv features adj crsCode bytes :
  serialize features adj crsCode = Ok bytes ->
  exists encoded section,
    mapM (fun f => buildFeature f (introspectHeaderMeta features)) features = Ok encoded
    /\ match adj with
       | Some a => buildGraphSection a (len features) = Ok section
       | None => section = []
       end
    /\ bytes = magicbytes ++ buildHeader (introspectHeaderMeta features) crsCode
                 ++ List.concat encoded ++ section.
Proof.
  intros H. unfold serialize in H.
  destruct (mapM (fun f => buildFeature f (introspectHeaderMeta features)) features)
    as [encoded|] eqn:Em; cbn [bind] in H; [|discriminate].
  destruct adj as [a|].
  - destruct (buildGraphSection a (len features)) as [section|] eqn:Eg;
      cbn [bind] in H; [|discriminate].
    inversion H; subst. now exists encoded, section.
  - cbn [bind] in H. inversion H; subst. now exists encoded, [].
Qed.

(** X11.  Adding an adjacency list only appends to the file: when both
    calls succeed, the file written with an adjacency list is the file
    written without one followed by the bytes of [buildGraphSection]; both
    start with the eight magic bytes and pass [isValidMagicBytes]. *)
Theorem graph_section_is_appended features a crsCode plain bytes :
  serialize features None crsCode = Ok plain ->
  serialize features (Some a) crsCode = Ok bytes ->
  (exists section,
      buildGraphSection a (len features) = Ok section /\ bytes = plain ++ section)
  /\ firstn 8 plain = magicbytes
  /\ firstn 8 bytes = magicbytes
  /\ isValidMagicBytes (Uint8Array.of_list plain) = true
  /\ isValidMagicBytes (Uint8Array.of_list bytes) = true.
Proof.
  intros Hp Hb.
  apply serialize_inv in Hp as [enc [s [Hm [-> ->]]]].
  apply serialize_inv in Hb as [enc' [section [Hm' [Hs ->]]]].
  rewrite Hm in Hm'. inversion Hm'; subst enc'. clear Hm'.
  split; [|repeat split;
             first [ reflexivity
                   | unfold magicbytes; cbn [map app];
                     rewrite isValidMagicBytes_three; reflexivity ]].
  exists section. split; [assumption|].
  rewrite app_nil_r, <- !app_assoc. reflexivity.
Qed.





(** X14.  A file written without an adjacency list holds no graph section
    for the reader: the locator returns the length of the file, the
    observer receives a null graph part, [deserialize] returns the
    features with an empty edge list, and the streaming reader ends at
    once without yielding. *)
Theorem plain_file_reads_no_edges {S : Type} features crsCode encoded bytes hm :
  featuresFramed features crsCode encoded ->
  serialize features None crsCode = Ok bytes ->
  fromByteBuffer (Uint8Array.of_list bytes) (len magicbytes) = Ok hm ->
  featuresCount hm = len features ->
  indexNodeSize hm = 0 ->
  calculateFeaturesEndOffset (Uint8Array.of_list bytes) hm = len bytes
  /\ (forall (f : FlatGeoGraphBufMetaFn S) (s : S),
        fst (deserialize (Uint8Array.of_list bytes) (Some f) s)
        = fst (f {| features := hm; graph := None |} s))
  /\ (forall fs,
        genericDeserialize (Uint8Array.of_list bytes) = Ok fs ->
        snd (deserialize (S := unit) (Uint8Array.of_list bytes) None tt)
        = Ok {| result_features := fs; adjacencyList := [] |})
  /\ collectEdges (Uint8Array.of_list bytes) = ([], None).
Proof.
  intros [Hmap [Hhdr Hfr]] Hser Hfb Hcnt Hidx.
  apply serialize_inv in Hser as [enc [section [Hm [-> ->]]]].
  rewrite Hmap in Hm. inversion Hm; subst enc. clear Hm.
  set (header := buildHeader (introspectHeaderMeta features) crsCode) in *.
  set (B := magicbytes ++ header ++ List.concat encoded ++ []) in *.
  assert (Hoff : calculateFeaturesEndOffset (Uint8Array.of_list B) hm = len B).
  { rewrite (locator_sized B header encoded []); try assumption.
    - subst B. now rewrite app_nil_r.
    - reflexivity.
    - rewrite Hcnt. unfold len. f_equal. symmetry. eapply mapM_length; eassumption. }
  split; [exact Hoff|].
  assert (Hlen : Uint8Array.length (Uint8Array.of_list B) = len B) by reflexivity.
  split; [|split].
  - intros f s. unfold deserialize. rewrite Hfb, Hoff, Hlen, Z.ltb_irrefl. reflexivity.
  - intros fs Hgd. unfold deserialize. rewrite Hfb, Hoff, Hlen, Z.ltb_irrefl.
    cbn [fst snd bind]. rewrite Hgd. reflexivity.
  - unfold collectEdges, deserializeGraphEdges. rewrite Hfb. cbn [bind].
    rewrite Hoff, Hlen, Z.leb_refl. reflexivity.
Qed.


Lemma drain_until_failure k : forall n bytes offset i ec cols es e,
  Z.to_nat (ec - i) = n -> (k < n)%nat ->
  parseEdges k bytes offset cols = Ok es ->
  parseEdges (S k) bytes offset cols = Throw e ->
  drain n (Delegating {| s_bytes := bytes; s_offset := offset; s_i := i;
                         s_edgeCount := ec; s_edgeColumns := cols |})
  = (es, Some e)
  /\ parseEdges n bytes offset cols = Throw e.
Proof.
  induction k as [|k IH]; intros n bytes offset i ec cols es e Hn Hk Hok Hfail;
    (destruct n as [|n]; [lia|]).
  - cbn [parseEdges] in Hok. inversion Hok; subst es. clear Hok.
    cbn [drain]. unfold next, stream_next. cbn [s_i s_edgeCount s_bytes s_offset s_edgeColumns].
    replace (i <? ec) with true by lia.
    cbn [parseEdges] in Hfail |- *.
    destruct (readSize bytes offset) as [sz|e1]; cbn [bind] in Hfail |- *;
      [|inversion Hfail; subst; split; reflexivity].
    destruct (parseEdge bytes (offset + SIZE_PREFIX_LEN) sz cols) as [e0|e2];
      cbn [bind] in Hfail |- *; [discriminate|].
    inversion Hfail; subst; split; reflexivity.
  - cbn [parseEdges] in Hok.
    destruct (readSize bytes offset) as [sz|] eqn:Es; cbn [bind] in Hok; [|discriminate].
    destruct (parseEdge bytes (offset + SIZE_PREFIX_LEN) sz cols) as [e0|] eqn:Ee;
      cbn [bind] in Hok; [|discriminate].
    destruct (parseEdges k bytes (offset + (SIZE_PREFIX_LEN + sz)) cols) as [es'|] eqn:Er;
      cbn [bind] in Hok; [|discriminate].
    inversion Hok; subst es. clear Hok.
    assert (Hfail' : parseEdges (S k) bytes (offset + (SIZE_PREFIX_LEN + sz)) cols
                     = Throw e).
    { change (parseEdges (S (S k)) bytes offset cols)
        with (edgeSize <- readSize bytes offset ;;
              edge <- parseEdge bytes (offset + SIZE_PREFIX_LEN) edgeSize cols ;;
              rest <- parseEdges (S k) bytes
                                 (offset + (SIZE_PREFIX_LEN + edgeSize)) cols ;;
              Ok (edge :: rest)) in Hfail.
      rewrite Es in Hfail. cbn [bind] in Hfail. rewrite Ee in Hfail. cbn [bind] in Hfail.
      destruct (parseEdges (S k) bytes (offset + (SIZE_PREFIX_LEN + sz)) cols);
        cbn [bind] in Hfail; [discriminate|congruence]. }
    destruct (IH n bytes (offset + (SIZE_PREFIX_LEN + sz)) (i + 1) ec cols es' e)
      as [Hd Hp]; try assumption; try lia.
    split.
    + cbn [drain]. unfold next, stream_next.
      cbn [s_i s_edgeCount s_bytes s_offset s_edgeColumns].
      replace (i <? ec) with true by lia.
      rewrite Es. cbn [bind]. rewrite Ee. cbn [bind].
      rewrite Hd. reflexivity.
    + change (parseEdges (S n) bytes offset cols)
        with (edgeSize <- readSize bytes offset ;;
              edge <- parseEdge bytes (offset + SIZE_PREFIX_LEN) edgeSize cols ;;
              rest <- parseEdges n bytes (offset + (SIZE_PREFIX_LEN + edgeSize)) cols ;;
              Ok (edge :: rest)).
      rewrite Es. cbn [bind]. rewrite Ee. cbn [bind]. rewrite Hp. reflexivity.
Qed.

(** X16.  When the record of edge number k (counted from 0) cannot be
    decoded, the streaming reader has yielded the k edges before it, in
    order, when it raises the error; the batch reader raises the same
    error and returns no edge at all. *)
Theorem stream_yields_edges_before_failure bytes offset hs h k es e :
  readSize bytes offset = Ok hs ->
  parseGraphHeader bytes (offset + SIZE_PREFIX_LEN) hs = Ok h ->
  let start := offset + SIZE_PREFIX_LEN + hs in
  (k < Z.to_nat (edgeCount h))%nat ->
  parseEdges k bytes start (edgeColumns h) = Ok es ->
  parseEdges (S k) bytes start (edgeColumns h) = Throw e ->
  parseGraphSection bytes offset = Throw e
  /\ exists st,
       deserializeGraphStream bytes offset = Ok st
       /\ drain (remaining (Delegating st)) (Delegating st) = (es, Some e).
Proof.
  intros Hs Hh start Hk Hok Hfail.
  destruct (drain_until_failure k (Z.to_nat (edgeCount h)) bytes start 0 (edgeCount h)
                                (edgeColumns h) es e)
    as [Hd Hp]; try assumption; [f_equal; lia|].
  split.
  - unfold parseGraphSection. rewrite Hs. cbn [bind]. rewrite Hh. cbn [bind]. exact Hp.
  - eexists. split.
    + unfold deserializeGraphStream. rewrite Hs. cbn [bind]. rewrite Hh. cbn [bind].
      reflexivity.
    + cbn [remaining s_edgeCount s_i]. rewrite Z.sub_0_r. exact Hd.
Qed.

End FileFacts.

(** ** The staging buffer in use *)

Section StagingRuns.

Lemma writeAll_spec chunks : forall st,
  Staging.wf st ->
  Staging.offset st + len (List.concat chunks) <= Staging.capacity st ->
  exists st',
    writeAll chunks st = Ok st'
    /\ Staging.wf st'
    /\ Staging.slice st' = Staging.slice st ++ List.concat chunks.
Proof.
  induction chunks as [|chunk rest IH]; intros st Hwf Hfit.
  - exists st. cbn [writeAll List.concat]. rewrite app_nil_r. auto.
  - cbn [List.concat] in Hfit. rewrite len_app in Hfit.
    pose proof (len_nonneg (List.concat rest)) as Hrest.
    destruct (write_spec chunk st Hwf) as [st1 [Hw [Hwf1 [Hs1 [Hc1 Ho1]]]]]; [lia|].
    destruct (IH st1 Hwf1) as [st2 [Hw2 [Hwf2 Hs2]]]; [lia|].
    exists st2. cbn [writeAll List.concat]. rewrite Hw. cbn [bind].
    split; [exact Hw2|]. split; [exact Hwf2|].
    rewrite Hs2, Hs1, <- app_assoc. reflexivity.
Qed.

Lemma stage_spec chunks st :
  Staging.wf st ->
  exists st',
    stage chunks st = Ok st'
    /\ Staging.wf st'
    /\ Staging.slice st' = Staging.slice st ++ List.concat chunks.
Proof.
  intros Hwf. unfold stage.
  destruct (prep_spec (len (List.concat chunks)) st Hwf (len_nonneg _))
    as [Hwf' [Hs [Ho Hcap]]].
  destruct (writeAll_spec chunks _ Hwf') as [st' [Hw [Hwf2 Hs2]]]; [lia|].
  exists st'. split; [exact Hw|]. split; [exact Hwf2|]. now rewrite Hs2, Hs.
Qed.

Lemma stageAll_spec groups : forall st,
  Staging.wf st ->
  exists st',
    stageAll groups st = Ok st'
    /\ Staging.wf st'
    /\ Staging.slice st' = Staging.slice st ++ List.concat (map (@List.concat byte) groups).
Proof.
  induction groups as [|group rest IH]; intros st Hwf.
  - exists st. cbn [stageAll map List.concat]. rewrite app_nil_r. auto.
  - destruct (stage_spec group st Hwf) as [st1 [Hs [Hwf1 Hs1]]].
    destruct (IH st1 Hwf1) as [st2 [Hs' [Hwf2 Hs2]]].
    exists st2. cbn [stageAll map List.concat]. rewrite Hs. cbn [bind].
    split; [exact Hs'|]. split; [exact Hwf2|].
    rewrite Hs2, Hs1, <- app_assoc. reflexivity.
Qed.

(** X17.  The growable staging buffer of [encodeEdgeProperties] never
    overflows and loses nothing: starting from the initial 256-byte buffer,
    any sequence of [prep(size)] calls, each followed by writes of [size]
    bytes in all, succeeds, whatever the sizes are, and
    [bytes.slice(0, offset)] is then exactly the bytes written, in order.
    This is what allows the encoder to be read as appending to a list. *)
Theorem staging_buffer_holds_what_is_written groups :
  exists st,
    stageAll groups Staging.initial = Ok st
    /\ Staging.slice st = List.concat (map (@List.concat byte) groups).
Proof.
  destruct (stageAll_spec groups Staging.initial initial_wf) as [st [H [_ Hs]]].
  exists st. split; [exact H|]. rewrite Hs. reflexivity.
Qed.

End StagingRuns.

(** ** Columns of the other types *)

Section OtherColumns.

Context {RT : JsRuntime}.








End OtherColumns.

(** ** Concrete runs *)

Section Runs.

Import Reference.
Import Samples.
Local Open Scope string_scope.

(** An edge without properties, then one with a number and a null: the
    schema is [w : Double, tag : String], and the graph header holds both
    columns. *)
Lemma schema_from_first_propertied_edge_witness :
  introspectEdgeColumns
    [edge 0 1 None; edge 1 2 (Some [("w", VNumber (Float.of_Z 1)); ("tag", VNull)])]
  = Ok (Some [ {| name := "w"; type := Some 10 |}; {| name := "tag"; type := Some 11 |} ])
  /\ buildGraphHeader
       2 (Some [ {| name := "w"; type := Some 10 |}; {| name := "tag"; type := Some 11 |} ])
     = hex [2; 0; 0; 0;  2; 0;  1; 0; 119; 10;  3; 0; 116; 97; 103; 11].
Proof.
  assert (Hh : specHeader 2 [("w", VNumber (Float.of_Z 1)); ("tag", VNull)]
               = hex [2; 0; 0; 0;  2; 0;  1; 0; 119; 10;  3; 0; 116; 97; 103; 11])
    by (vm_compute; reflexivity).
  rewrite <- Hh.
  refine (let H := proj2 (schema_from_first_propertied_edge
                            twoFeatures
                            {| edges := [edge 0 1 None;
                                         edge 1 2 (Some [("w", VNumber (Float.of_Z 1));
                                                         ("tag", VNull)])] |}
                            0)
                         [edge 0 1 None]
                         (edge 1 2 (Some [("w", VNumber (Float.of_Z 1)); ("tag", VNull)]))
                         []
                         [("w", VNumber (Float.of_Z 1)); ("tag", VNull)]
                         eq_refl _ eq_refl _ _ _ in
          conj (proj1 H) (proj1 (proj2 H) 2)).
  - intros e' [<-|[]]. left. reflexivity.
  - discriminate.
  - repeat constructor; cbn; intuition discriminate.
  - intros k v [H|[H|[]]]; inversion H; reflexivity.
Defined.



(** A record of declared size 11 under a header without columns. *)
Lemma parseEdge_without_columns_witness :
  parseEdge (Uint8Array.of_list sectionNoColumns) 14 11 None
  = Ok {| Edge.from := 0; Edge.to := 1; Edge.properties := [] |}.
Proof.
  refine (proj2 (parseEdge_without_columns
                   (Uint8Array.of_list sectionNoColumns) 4 6
                   {| edgeCount := 1; edgeColumns := None |} 14 11
                   eq_refl eq_refl _ _)).
  - vm_compute. discriminate.
  - vm_compute. discriminate.
Defined.

(** C7, counterexample.  A record whose declared size is 0, and a record
    whose declared size reaches far past the end of the buffer, are both
    read without any error; indices 7 and 9 are accepted as they are.  An
    error that is not about the size: a column of type number 99. *)
Lemma parseGraphSection_accepts_bad_sizes :
  parseGraphSection (Uint8Array.of_list sectionSizeZero) 0
  = Ok [ {| Edge.from := 7; Edge.to := 9; Edge.properties := [] |} ]
  /\ parseGraphSection (Uint8Array.of_list sectionSizePastEnd) 0
     = Ok [ {| Edge.from := 0; Edge.to := 1; Edge.properties := [("b", VBool true)] |} ]
  /\ parseEdge (Uint8Array.of_list recordUnknownType) 0 11
               (Some [ {| name := "b"; type := Some 99 |} ])
     = Throw (Error "Unknown column type: 99").
Proof. repeat split; vm_compute; reflexivity. Qed.

(** A declared size of 100 where 11 bytes are left reads like a declared size of 11. *)
Lemma parseEdge_size_not_validated_witness :
  parseEdge (Uint8Array.of_list sectionSizePastEnd) 18 100 (Some [boolColumn])
  = parseEdge (Uint8Array.of_list sectionSizePastEnd) 18 11 (Some [boolColumn]).
Proof.
  refine (proj2 (proj1 (parseEdge_size_not_validated
                          (Uint8Array.of_list sectionSizePastEnd) 18 100
                          (Some [boolColumn]) _ _ _) _) _);
    vm_compute; discriminate.
Defined.

(** C6, counterexample.  On a file with the FlatGeobuf magic the locator
    returns 18, not the file length 40, and the streaming reader yields
    the edge that follows; on a file whose first eight bytes are no magic
    nothing is raised either. *)
Lemma locator_checks_no_magic :
  calculateFeaturesEndOffset (Uint8Array.of_list fgbFile) noFeatures = 18
  /\ Uint8Array.length (Uint8Array.of_list fgbFile) = 40
  /\ collectEdges (Uint8Array.of_list fgbFile)
     = ([ {| Edge.from := 7; Edge.to := 9; Edge.properties := [] |} ], None)
  /\ isValidMagicBytes (Uint8Array.of_list badMagicFile) = false
  /\ calculateFeaturesEndOffset (Uint8Array.of_list badMagicFile) noFeatures = 18
  /\ collectEdges (Uint8Array.of_list badMagicFile)
     = ([ {| Edge.from := 7; Edge.to := 9; Edge.properties := [] |} ], None).
Proof. repeat split; vm_compute; reflexivity. Qed.

(** The same file behind two different magics. *)
Lemma locator_ignores_magic_witness :
  calculateFeaturesEndOffset (Uint8Array.of_list fgbFile) noFeatures
  = calculateFeaturesEndOffset (Uint8Array.of_list badMagicFile) noFeatures.
Proof.
  refine (proj1 (locator_ignores_magic
                   fgbMagicBytes (hex [1; 2; 3; 4; 5; 6; 7; 8])
                   (hex [6; 0; 0; 0;  0; 0; 0; 0;  0; 0] ++ sectionSizeZero)
                   noFeatures eq_refl eq_refl _)).
  vm_compute. discriminate.
Defined.

(** The counting observer is called once, with a graph part that has no columns. *)
Lemma observer_called_once_before_materializing_witness :
  fst (deserialize (Uint8Array.of_list fgbFile) (Some countingObserver) (O, []))
  = (1%nat, [false]).
Proof.
  refine (proj1 (proj2 (observer_called_once_before_materializing
                          (Uint8Array.of_list fgbFile) countingObserver (O, [])
                          noFeatures eq_refl)
                       _
                       {| edgeCount := 1; edgeColumns := None |} eq_refl)).
  vm_compute. reflexivity.
Defined.

(** The edge the batch reader returns is the edge the stream yields. *)
Lemma streaming_equals_batch_witness :
  collectEdges (Uint8Array.of_list fgbFile)
  = ([ {| Edge.from := 7; Edge.to := 9; Edge.properties := [] |} ], None).
Proof.
  refine (proj1 (streaming_equals_batch (S := unit) (Uint8Array.of_list fgbFile) None tt)
                {| result_features := [];
                   adjacencyList := [ {| Edge.from := 7; Edge.to := 9;
                                         Edge.properties := [] |} ] |}
                _).
  vm_compute. reflexivity.
Defined.

(** A Bool property, then ordinal 5 under a schema of one column. *)
Lemma decoder_stops_at_unknown_ordinal_witness :
  parseEdgeProperties (Uint8Array.of_list regionUnknownOrdinal) (Some [boolColumn])
  = Ok [("b", VBool true)].
Proof.
  refine (proj1 (decoder_stops_at_unknown_ordinal
                   (Uint8Array.of_list regionUnknownOrdinal) boolColumn []
                   (DataView.make regionUnknownOrdinal 0) 3 [("b", VBool true)] 5
                   eq_refl _ _ eq_refl _)).
  - eapply decodes_step; [vm_compute; reflexivity | apply decodes_here].
  - vm_compute. reflexivity.
  - vm_compute. discriminate.
Defined.





End Runs.

(** ** Concrete runs of the further properties *)

Section MoreRuns.

Import Reference.
Import Samples.
Import Cases.
Local Open Scope string_scope.

(** The column ["j"] of the schema inferred from [typedGraph] is a Json column. *)
Lemma inferred_columns_are_encodable_witness :
  exists t, In t inferredTypes
            /\ type {| name := "j"; type := Some 12 |} = Some (ColumnType.tag t).
Proof.
  refine (proj1 (inferred_columns_are_encodable
                   (edges typedGraph) (Some typedColumns)
                   {| name := "j"; type := Some 12 |} _ _)).
  - vm_compute. reflexivity.
  - cbn. tauto.
Defined.

(** The key ["extra"] is outside the schema of [typedGraph]. *)
Lemma encoding_depends_on_stored_values_witness :
  encodeEdgeProperties (Some [("s", VString "y"); ("extra", VBool false)])
                       (Some typedColumns)
  = encodeEdgeProperties (Some [("z", VNull); ("s", VString "y")]) (Some typedColumns).
Proof.
  refine (proj1 (encoding_depends_on_stored_values
                   [("s", VString "y"); ("extra", VBool false)]
                   [("z", VNull); ("s", VString "y")] (Some typedColumns)) _).
  intros c [<-|[<-|[<-|[<-|[<-|[<-|[]]]]]]];
    first [ left; reflexivity | right; split; reflexivity ].
Defined.

(** The record of [sectionSizePastEnd]. *)
Lemma decoded_keys_are_columns_witness :
  NoDup (map fst [("b", VBool true)])
  /\ forall k, In k (map fst [("b", VBool true)]) -> In k (map name [boolColumn]).
Proof.
  refine (decoded_keys_are_columns
            (Uint8Array.of_list sectionSizePastEnd) 18 100 (Some [boolColumn])
            {| Edge.from := 0; Edge.to := 1; Edge.properties := [("b", VBool true)] |} _).
  vm_compute. reflexivity.
Defined.

(** A hundred units of fuel on a region of seven bytes. *)
Lemma property_loop_terminates_witness :
  parseProperties 100 (Uint8Array.of_list regionUnknownOrdinal)
                  (DataView.make regionUnknownOrdinal 0) [boolColumn] 0 []
  = parseProperties (Z.to_nat (Uint8Array.length (Uint8Array.of_list regionUnknownOrdinal) - 0))
                    (Uint8Array.of_list regionUnknownOrdinal)
                    (DataView.make regionUnknownOrdinal 0) [boolColumn] 0 [].
Proof.
  refine (proj2 (property_loop_terminates
                   (Uint8Array.of_list regionUnknownOrdinal)
                   (DataView.make regionUnknownOrdinal 0) [boolColumn])
                100%nat 0 [] _).
  vm_compute. discriminate.
Defined.

(** The section [sectionSizePastEnd] declares one edge. *)
Lemma section_returns_declared_edges_witness :
  exists h,
    parseGraphSectionHeader (Uint8Array.of_list sectionSizePastEnd) 0 = Ok h
    /\ len [ {| Edge.from := 0; Edge.to := 1; Edge.properties := [("b", VBool true)] |} ]
       = edgeCount h
    /\ 0 <= edgeCount h < 2 ^ 32
    /\ Forall indexInRange
              [ {| Edge.from := 0; Edge.to := 1; Edge.properties := [("b", VBool true)] |} ].
Proof.
  refine (section_returns_declared_edges (Uint8Array.of_list sectionSizePastEnd) 0 _ _).
  vm_compute. reflexivity.
Defined.


(** The header of three edges under the schema of [typedGraph], between other bytes. *)
Lemma graph_header_roundtrip_witness :
  parseGraphHeader
    (Uint8Array.of_list (hex [9; 9] ++ buildGraphHeader 3 (Some typedColumns) ++ hex [7]))
    (len (hex [9; 9])) 0
  = Ok {| edgeCount := 3; edgeColumns := Some typedColumns |}.
Proof.
  refine (proj1 (graph_header_roundtrip 3 (Some typedColumns) (hex [9; 9]) (hex [7]) 0
                                        _ _ _)).
  - vm_compute. split; first [discriminate | reflexivity].
  - vm_compute. reflexivity.
  - intros c [<-|[<-|[<-|[<-|[<-|[<-|[]]]]]]];
      (split; [eexists; split; [reflexivity|vm_compute; split; first [discriminate | reflexivity]]|]);
      (split; [apply string_of_list_byte_of_string|vm_compute; reflexivity]).
Defined.

(** A column of type 200. *)
Lemma unknown_column_type_raises_on_use_witness :
  parseEdgeProperties (Uint8Array.of_list (setUint 2 0 ++ hex [1]))
                      (Some [ {| name := "x"; type := Some 200 |} ])
  = Throw (Error "Unknown column type: 200").
Proof.
  refine (proj1 (proj2 (unknown_column_type_raises_on_use 1 "x" 200 _ _ _ _)) (hex [1])).
  - vm_compute. split; first [discriminate | reflexivity].
  - vm_compute. split; reflexivity.
  - apply string_of_list_byte_of_string.
  - vm_compute. reflexivity.
Defined.


(** Header, a spatial index of 120 bytes, two features, then a graph section. *)
Lemma locator_finds_end_of_features_witness :
  calculateFeaturesEndOffset
    (Uint8Array.of_list
       (magicbytes ++ hex [6; 0; 0; 0;  2; 0; 0; 0;  16; 0] ++ indexBytes
          ++ List.concat [hex [0; 0; 0; 0]; hex [0; 0; 0; 0]] ++ flagSection))
    twoIndexed
  = len (magicbytes ++ hex [6; 0; 0; 0;  2; 0; 0; 0;  16; 0] ++ indexBytes
           ++ List.concat [hex [0; 0; 0; 0]; hex [0; 0; 0; 0]]).
Proof.
  refine (proj1 (locator_finds_end_of_features
                   (hex [6; 0; 0; 0;  2; 0; 0; 0;  16; 0]) indexBytes
                   [hex [0; 0; 0; 0]; hex [0; 0; 0; 0]] flagSection twoIndexed
                   _ _ _ _)).
  - exists (hex [2; 0; 0; 0;  16; 0]). split; [reflexivity|vm_compute; reflexivity].
  - repeat constructor; exists []; (split; [reflexivity|vm_compute; reflexivity]).
  - reflexivity.
  - vm_compute. reflexivity.
Defined.

(** The file of [flagGraph] is the plain file followed by its graph section. *)
Lemma graph_section_is_appended_witness :
  exists section,
    buildGraphSection flagGraph (len twoFeatures) = Ok section
    /\ (plainFile ++ flagSection = plainFile ++ section)%list.
Proof.
  refine (proj1 (graph_section_is_appended twoFeatures flagGraph 0
                                           plainFile (plainFile ++ flagSection)%list _ _));
    vm_compute; reflexivity.
Defined.



(** The plain file yields no edge. *)
Lemma plain_file_reads_no_edges_witness :
  collectEdges (Uint8Array.of_list plainFile) = ([], None).
Proof.
  refine (proj2 (proj2 (proj2 (plain_file_reads_no_edges
                                 (S := unit) twoFeatures 0
                                 [hex [0; 0; 0; 0]; hex [0; 0; 0; 0]]
                                 plainFile twoVertices _ _ _ _ _)))).
  - split; [reflexivity|]. split.
    + exists (hex [2; 0; 0; 0; 0; 0]). split; [reflexivity|]. vm_compute. reflexivity.
    + repeat constructor; exists []; (split; [reflexivity|vm_compute; reflexivity]).
  - vm_compute. reflexivity.
  - vm_compute. reflexivity.
  - reflexivity.
  - reflexivity.
Defined.


(** A section cut inside its second record: one edge is yielded, then the error. *)
Lemma stream_yields_edges_before_failure_witness :
  parseGraphSection (Uint8Array.of_list cutSection) 0 = Throw RangeError
  /\ exists st,
       deserializeGraphStream (Uint8Array.of_list cutSection) 0 = Ok st
       /\ drain (remaining (Delegating st)) (Delegating st)
          = ([ {| Edge.from := 0; Edge.to := 1; Edge.properties := [] |} ],
             Some RangeError).
Proof.
  refine (stream_yields_edges_before_failure
            (Uint8Array.of_list cutSection) 0 6
            {| edgeCount := 2; edgeColumns := None |} 1
            [ {| Edge.from := 0; Edge.to := 1; Edge.properties := [] |} ] RangeError
            _ _ _ _ _).
  - vm_compute. reflexivity.
  - vm_compute. reflexivity.
  - vm_compute. constructor.
  - vm_compute. reflexivity.
  - vm_compute. reflexivity.
Defined.




End MoreRuns.
